(** * waffle.py: cohort selection, series building and span trimming

    A shallow embedding of the three data-processing functions of
    [waffle.py] ([get_top_users], [parse_waffle_rows] and
    [get_limiting_waffles]) together with the properties of their results.

    Python's [int] is unbounded, so counts and indices are [Z].  Python's
    [dict] keeps its keys in insertion order and the code relies on it
    ([sorted] is stable, [items()] is iterated), so a dict is an association
    list with unique keys, in insertion order. *)

From Stdlib Require Import ZArith List String Bool Lia Sorted Permutation.
Import ListNotations.

Local Open Scope Z_scope.

Set Implicit Arguments.

(** ** Python dictionaries, insertion ordered *)

Module Dict.

Section WithValues.
Variable V : Type.

Definition t : Type := list (string * V).

Definition keys (d : t) : list string := map fst d.

(** [d.get(k)] *)
Fixpoint get (k : string) (d : t) : option V :=
  match d with
  | [] => None
  | (k', v) :: d' => if String.eqb k k' then Some v else get k d'
  end.

(** [k in d] *)
Definition mem (k : string) (d : t) : bool :=
  match get k d with Some _ => true | None => false end.

(** [d[k]] on a [defaultdict] whose factory yields [dflt] (reading only). *)
Definition get_default (dflt : V) (k : string) (d : t) : V :=
  match get k d with Some v => v | None => dflt end.

(** [d[k] = v]: an existing key keeps its position, a new key goes last. *)
Fixpoint set (k : string) (v : V) (d : t) : t :=
  match d with
  | [] => [(k, v)]
  | (k', v') :: d' =>
      if String.eqb k k' then (k', v) :: d' else (k', v') :: set k v d'
  end.

(** [d.update(items)] *)
Definition update (d : t) (items : list (string * V)) : t :=
  fold_left (fun acc kv => set (fst kv) (snd kv) acc) items d.

End WithValues.

End Dict.

(** ** Rows of the csv file *)

(** The value of [datetime.strptime(row[COL_TIME], TIME_FORMAT)]. *)
Record datetime : Type := mkDatetime {
  year : Z; month : Z; day : Z; hour : Z; minute : Z; second : Z
}.

(** One row, with [int(row[COL_WAFFLES])] and the parsed time in place of the
    strings they are read from. *)
Record row : Type := mkRow {
  uid : string;        (* row[COL_UID] *)
  waffles : Z;         (* int(row[COL_WAFFLES]) *)
  time : datetime;     (* strptime(row[COL_TIME], TIME_FORMAT) *)
  username : string    (* row[COL_USERNAME] *)
}.

Definition RowList := list row.
Definition DatetimeList := list datetime.
Definition CountLookup := Dict.t Z.
Definition IndexLookup := Dict.t Z.
Definition History := list Z.
Definition HistoryLookup := Dict.t History.

(** ** get_limiting_waffles *)

(** The backward loop: [last_index] is decremented before the comparison,
    and the loop is left at the first element that differs from the one
    visited just before it. *)
Fixpoint scan_backwards (rev_history : list Z) (last_index next_wafflecount : Z) : Z :=
  match rev_history with
  | [] => last_index
  | wafflecount :: rest =>
      let last_index := last_index - 1 in
      if negb (wafflecount =? next_wafflecount) then last_index
      else scan_backwards rest last_index wafflecount
  end.

(** The forward loop: [prev_wafflecount] is never reassigned, and
    [first_index] is incremented after the comparison. *)
Fixpoint scan_forwards (history : list Z) (first_index prev_wafflecount : Z) : Z :=
  match history with
  | [] => first_index
  | wafflecount :: rest =>
      if negb (wafflecount =? prev_wafflecount) then first_index
      else scan_forwards rest (first_index + 1) prev_wafflecount
  end.

Definition len (A : Type) (l : list A) : Z := Z.of_nat (List.length l).

(** The body of the loop over the users, for one history: the pair
    [(first_waffle[username], last_waffle[username])].  [history[LAST]] and
    [history[FIRST]] raise [IndexError] on an empty list: [None]. *)
Definition limiting_waffles (history : History) : option (Z * Z) :=
  match history, rev history with
  | history_first :: _, history_last :: _ =>
      let last_index := scan_backwards (rev history) (len history) history_last in
      let last_waffle := Z.min (last_index + 1) (len history) in
      let first_index := scan_forwards history 0 history_first in
      let first_waffle := Z.max (first_index - 1) 0 in
      Some (first_waffle, last_waffle)
  | _, _ => None
  end.

(** The loop over [history_lookup.items()], filling both index dicts. *)
Fixpoint limiting_loop (items : list (string * History))
    (first_waffle last_waffle : IndexLookup) : option (IndexLookup * IndexLookup) :=
  match items with
  | [] => Some (first_waffle, last_waffle)
  | (username, history) :: rest =>
      match limiting_waffles history with
      | None => None
      | Some (f, l) =>
          limiting_loop rest (Dict.set username f first_waffle)
                             (Dict.set username l last_waffle)
      end
  end.

Definition get_limiting_waffles (history_lookup : HistoryLookup)
  : option (IndexLookup * IndexLookup) :=
  limiting_loop history_lookup [] [].

(** ** get_top_users *)

(** [users[k] += n] on [users = defaultdict(int)]. *)
Definition add_waffles (k : string) (n : Z) (users : CountLookup) : CountLookup :=
  Dict.set k (Dict.get_default 0 k users + n) users.

(** [sorted(users, key=users.get, reverse=True)]: Python's sort is stable,
    also under [reverse=True], so users with equal counts stay in insertion
    order.  The items are sorted by their count and the keys are returned. *)
Fixpoint insert_by_count (kv : string * Z) (sorted : list (string * Z))
  : list (string * Z) :=
  match sorted with
  | [] => [kv]
  | kv' :: rest =>
      if snd kv <? snd kv' then kv' :: insert_by_count kv rest
      else kv :: kv' :: rest
  end.

Definition sorted_by_count (users : CountLookup) : list string :=
  map fst (fold_right insert_by_count [] users).

(** [l[:n]] for any integer [n]: a negative [n] counts from the end. *)
Definition slice_to (A : Type) (n : Z) (l : list A) : list A :=
  if 0 <=? n then firstn (Z.to_nat n) l
  else firstn (Z.to_nat (len l + n)) l.

(** The dict comprehension
    [{key: users[key] for key in sorted(...)[:MAX_RANK]}], as its items. *)
Definition top_snapshot (MAX_RANK : Z) (users : CountLookup) : list (string * Z) :=
  map (fun key => (key, Dict.get_default 0 key users))
      (slice_to MAX_RANK (sorted_by_count users)).

(** [consumption_time.day != prev_day], where [prev_day] starts as [None]. *)
Definition is_new_day (d : Z) (prev_day : option Z) : bool :=
  match prev_day with
  | None => true
  | Some p => negb (d =? p)
  end.

Record top_state : Type := mkTopState {
  users : CountLookup;
  prev_day : option Z;
  top_users : CountLookup
}.

(** One iteration of the loop of [get_top_users]. *)
Definition top_step (MAX_RANK : Z) (st : top_state) (r : row) : top_state :=
  let users := add_waffles (username r) (waffles r) (users st) in
  let consumption_time := time r in
  let top_users :=
    if is_new_day (day consumption_time) (prev_day st)
    then Dict.update (top_users st) (top_snapshot MAX_RANK users)
    else top_users st in
  mkTopState users (Some (day consumption_time)) top_users.

Definition top_init : top_state := mkTopState [] None [].

Definition top_loop (MAX_RANK : Z) (rows : RowList) (st : top_state) : top_state :=
  fold_left (top_step MAX_RANK) rows st.

Definition get_top_users (MAX_RANK : Z) (rows : RowList) : CountLookup :=
  top_users (top_loop MAX_RANK rows top_init).

(** ** parse_waffle_rows *)

(** [user_counts[k] += n] on the plain dict [user_counts]: a missing key
    raises [KeyError]. *)
Definition add_existing (k : string) (n : Z) (user_counts : CountLookup)
  : option CountLookup :=
  match Dict.get k user_counts with
  | Some v => Some (Dict.set k (v + n) user_counts)
  | None => None
  end.

(** [history_lookup[user].append(count)] on [defaultdict(list)]. *)
Definition append_count (history_lookup : HistoryLookup) (uc : string * Z)
  : HistoryLookup :=
  Dict.set (fst uc) (Dict.get_default [] (fst uc) history_lookup ++ [snd uc])
           history_lookup.

(** [for user, count in user_counts.items(): history_lookup[user].append(count)] *)
Definition append_counts (user_counts : CountLookup) (history_lookup : HistoryLookup)
  : HistoryLookup :=
  fold_left append_count user_counts history_lookup.

Record series_state : Type := mkSeriesState {
  user_counts : CountLookup;
  consumption_times : DatetimeList;
  history_lookup : HistoryLookup;
  series_prev_day : option Z
}.

(** One iteration of the loop of [parse_waffle_rows]. *)
Definition series_step (st : series_state) (r : row) : option series_state :=
  match add_existing (username r) (waffles r) (user_counts st) with
  | None => None
  | Some user_counts =>
      let consumption_time := time r in
      if is_new_day (day consumption_time) (series_prev_day st)
      then Some (mkSeriesState user_counts
                   (consumption_times st ++ [consumption_time])
                   (append_counts user_counts (history_lookup st))
                   (Some (day consumption_time)))
      else Some (mkSeriesState user_counts (consumption_times st)
                   (history_lookup st) (Some (day consumption_time)))
  end.

Fixpoint series_loop (rows : RowList) (st : series_state) : option series_state :=
  match rows with
  | [] => Some st
  | r :: rest =>
      match series_step st r with
      | None => None
      | Some st' => series_loop rest st'
      end
  end.

(** [{ key: 0 for key in top_users }] *)
Definition zero_counts (top_users : CountLookup) : CountLookup :=
  map (fun kv => (fst kv, 0)) top_users.

(** [(row for row in rows if row[COL_USERNAME] in top_users)] *)
Definition cohort_rows (top_users : CountLookup) (rows : RowList) : RowList :=
  filter (fun r => Dict.mem (username r) top_users) rows.

Definition series_init (top_users : CountLookup) : series_state :=
  mkSeriesState (zero_counts top_users) [] [] None.

Definition parse_waffle_rows (MAX_RANK : Z) (rows : RowList)
  : option (DatetimeList * HistoryLookup) :=
  let top_users := get_top_users MAX_RANK rows in
  match series_loop (cohort_rows top_users rows) (series_init top_users) with
  | None => None
  | Some st => Some (consumption_times st, history_lookup st)
  end.

(** ** get_linestyle_cycle *)

Definition LINESTYLE_PRIMARY_THRESHOLD : Z := 25.
Definition LINESTYLE_SECONDARY_THRESHOLD : Z := 50.
Definition LINESTYLE_FIRST_QUARTER : string := ":".
Definition LINESTYLE_SECOND_QUARTER : string := "-.".
Definition LINESTYLE_THIRD_QUARTER : string := "--".
Definition LINESTYLE_FOURTH_QUARTER : string := "-".

(** [range(n)]: empty for [n <= 0]. *)
Definition range (n : Z) : list Z := map Z.of_nat (seq 0 (Z.to_nat n)).

(** The linestyle yielded for [index]; [//] is floor division. *)
Definition linestyle (num_users index : Z) : string :=
  if (index <? num_users / 4) && (LINESTYLE_SECONDARY_THRESHOLD <? num_users)
  then LINESTYLE_FIRST_QUARTER
  else if (index <? num_users / 2) && (LINESTYLE_PRIMARY_THRESHOLD <? num_users)
  then LINESTYLE_SECOND_QUARTER
  else if (index <? 3 * num_users / 4) && (LINESTYLE_SECONDARY_THRESHOLD <? num_users)
  then LINESTYLE_THIRD_QUARTER
  else LINESTYLE_FOURTH_QUARTER.

(** The generator, as the list of what it yields. *)
Definition get_linestyle_cycle (num_users : Z) : list string :=
  map (linestyle num_users) (range num_users).

(** ** do_plot: the values it hands to the plot

    Of [do_plot] the values are modelled that it computes itself: the two
    index dicts, for every user the slices and the label given to [ax.plot]
    and the position and count of the text box, and the limits of the axes.
    The figure, the styles, the grid and the legend are matplotlib's. *)

Definition FIRST : Z := 0.
Definition LAST : Z := -1.

(** How a slice bound is brought into [0 .. n]. *)
Definition slice_index (i n : Z) : Z :=
  if i <? 0 then Z.max (i + n) 0 else Z.min i n.

(** [l[start:stop]] *)
Definition py_slice (A : Type) (start stop : Z) (l : list A) : list A :=
  let s := slice_index start (len l) in
  let e := slice_index stop (len l) in
  firstn (Z.to_nat (e - s)) (skipn (Z.to_nat s) l).

(** [l[i]]: a negative index counts from the end, [IndexError] is [None]. *)
Definition py_index (A : Type) (i : Z) (l : list A) : option A :=
  let j := if i <? 0 then i + len l else i in
  if (0 <=? j) && (j <? len l) then nth_error l (Z.to_nat j) else None.

(** [max(l)]: [ValueError] on an empty list is [None]. *)
Definition py_max (l : list Z) : option Z :=
  match l with
  | [] => None
  | x :: rest => Some (fold_left Z.max rest x)
  end.

Record plot_line : Type := mkLine {
  line_x : DatetimeList;     (* consumption_times[history_slice] *)
  line_y : History;          (* history[history_slice] *)
  line_label : string        (* label=username *)
}.

(** The text box: its position, and the user and the count its text shows. *)
Record text_box : Type := mkTextBox {
  text_x : datetime;         (* consumption_times[last_waffle[username]-1] *)
  text_y : Z;                (* history[last_waffle[username]-1] *)
  text_user : string;
  text_count : Z             (* history_lookup[username][LAST] *)
}.

(** One iteration of the loop over [history_lookup.items()]. *)
Definition plot_user (DO_TEXTBOXES : bool) (consumption_times : DatetimeList)
    (first_waffle last_waffle : IndexLookup) (item : string * History)
  : option (plot_line * option text_box) :=
  let username := fst item in
  let history := snd item in
  match Dict.get username first_waffle, Dict.get username last_waffle with
  | Some f, Some l =>
      let line := mkLine (py_slice f l consumption_times)
                         (py_slice f l history) username in
      if DO_TEXTBOXES then
        match py_index (l - 1) consumption_times,
              py_index (l - 1) history,
              py_index LAST history with
        | Some x, Some y, Some c =>
            Some (line, Some (mkTextBox x y username c))
        | _, _, _ => None
        end
      else Some (line, None)
  | _, _ => None
  end.

Fixpoint plot_users (DO_TEXTBOXES : bool) (consumption_times : DatetimeList)
    (first_waffle last_waffle : IndexLookup) (items : list (string * History))
  : option (list (plot_line * option text_box)) :=
  match items with
  | [] => Some []
  | item :: rest =>
      match plot_user DO_TEXTBOXES consumption_times first_waffle last_waffle item with
      | None => None
      | Some drawn =>
          match plot_users DO_TEXTBOXES consumption_times first_waffle
                           last_waffle rest with
          | None => None
          | Some more => Some (drawn :: more)
          end
      end
  end.

(** [[history[LAST] for history in history_lookup.values()]] *)
Fixpoint final_counts (items : list (string * History)) : option (list Z) :=
  match items with
  | [] => Some []
  | item :: rest =>
      match py_index LAST (snd item), final_counts rest with
      | Some c, Some more => Some (c :: more)
      | _, _ => None
      end
  end.

Record plot_data : Type := mkPlot {
  plot_drawn : list (plot_line * option text_box);
  plot_ylim : Z * Z;
  plot_xlim : datetime * datetime
}.

Definition do_plot (DO_TEXTBOXES : bool) (consumption_times : DatetimeList)
    (history_lookup : HistoryLookup) : option plot_data :=
  match get_limiting_waffles history_lookup with
  | None => None
  | Some (first_waffle, last_waffle) =>
      match plot_users DO_TEXTBOXES consumption_times first_waffle last_waffle
                       history_lookup with
      | None => None
      | Some drawn =>
          match final_counts history_lookup with
          | None => None
          | Some finals =>
              match py_max finals,
                    py_index FIRST consumption_times,
                    py_index LAST consumption_times with
              | Some top, Some t_first, Some t_last =>
                  Some (mkPlot drawn (0, top) (t_first, t_last))
              | _, _, _ => None
              end
          end
      end
  end.

(** [do_it], without the reading of the file. *)
Definition do_it (MAX_RANK : Z) (DO_TEXTBOXES : bool) (rows : RowList)
  : option plot_data :=
  match parse_waffle_rows MAX_RANK rows with
  | None => None
  | Some (consumption_times, history_lookup) =>
      do_plot DO_TEXTBOXES consumption_times history_lookup
  end.

(** ** The whole computation

    [do_it] hands the result of [parse_waffle_rows] to [do_plot], which calls
    [get_limiting_waffles] on the history lookup. *)
Record outputs : Type := mkOutputs {
  out_cohort : CountLookup;
  out_times : DatetimeList;
  out_history : HistoryLookup;
  out_first : IndexLookup;
  out_last : IndexLookup
}.

Definition pipeline (MAX_RANK : Z) (rows : RowList) : option outputs :=
  match parse_waffle_rows MAX_RANK rows with
  | None => None
  | Some (times, hist) =>
      match get_limiting_waffles hist with
      | None => None
      | Some (first_waffle, last_waffle) =>
          Some (mkOutputs (get_top_users MAX_RANK rows) times hist
                          first_waffle last_waffle)
      end
  end.

(** ** Sample data *)

Definition at_day (m d : Z) : datetime := mkDatetime 2019 m d 12 0 0.

Definition ev (name : string) (n : Z) (t : datetime) : row :=
  mkRow "0" n t name.

Definition two_events : RowList :=
  [ev "A" 5 (at_day 1 1); ev "A" 3 (at_day 1 2)].

Definition constant_tail : RowList :=
  [ev "A" 4 (at_day 1 1); ev "B" 1 (at_day 1 2); ev "B" 1 (at_day 1 3)].

Definition overtaken : RowList :=
  [ev "A" 5 (at_day 1 1); ev "B" 10 (at_day 1 2)].

Definition same_day_newcomer : RowList :=
  [ev "A" 5 (at_day 1 1); ev "B" 3 (at_day 1 1)].

Definition evicted : RowList :=
  [ev "A" 5 (at_day 1 1); ev "B" 10 (at_day 1 2); ev "A" 2 (at_day 1 2);
   ev "C" 1 (at_day 1 3)].

Definition on_day_31 : row := ev "B" 5 (at_day 1 31).
Definition on_day_1 : row := ev "A" 3 (at_day 2 1).
Definition before_month_end : RowList := [ev "A" 10 (at_day 1 1)].

Definition month_end_filtered : RowList :=
  [ev "A" 10 (at_day 1 1); ev "B" 1 (at_day 1 31); ev "A" 1 (at_day 2 1)].

(** Every element equals [history[0]]. *)
Definition constant (history : History) : Prop :=
  forall x, In x history -> x = hd 0 history.

(** ** Vocabulary for the properties

    The running totals, the day boundaries and the snapshots are named here
    on their own, from the event sequence alone, so that the results of the
    loops can be compared with them. *)

(** The sum of the quantities of the events of [actor]. *)
Fixpoint running_total (actor : string) (events : RowList) : Z :=
  match events with
  | [] => 0
  | r :: rest =>
      (if String.eqb (username r) actor then waffles r else 0)
      + running_total actor rest
  end.

(** The totals of all users after [events]. *)
Definition totals (events : RowList) : CountLookup :=
  fold_left (fun users r => add_waffles (username r) (waffles r) users) events [].

(** The day of month of the last of [events], if any. *)
Definition last_day_from (prev : option Z) (events : RowList) : option Z :=
  fold_left (fun _ r => Some (day (time r))) events prev.

Definition last_day (events : RowList) : option Z := last_day_from None events.

(** The event [r], coming right after [before], falls on another day of the
    month than the event before it, or is the very first event. *)
Definition crosses_day (before : RowList) (r : row) : Prop :=
  is_new_day (day (time r)) (last_day before) = true.

(** [rows] has a day boundary at [r], which comes after the events [before]. *)
Definition snapshot_at (rows before : RowList) (r : row) : Prop :=
  (exists after, rows = before ++ r :: after) /\ crosses_day before r.

(** The users within the first [MAX_RANK] by total after [events]. *)
Definition top_ranked (MAX_RANK : Z) (events : RowList) : list string :=
  slice_to MAX_RANK (sorted_by_count (totals events)).

(** The order [sorted(..., reverse=True)] puts the items in. *)
Definition outranks (x y : string * Z) : Prop := snd y <= snd x.

(** The number of day boundaries of [rows]. *)
Definition count_step (st : option Z * Z) (r : row) : option Z * Z :=
  (Some (day (time r)),
   snd st + if is_new_day (day (time r)) (fst st) then 1 else 0).

Definition day_boundaries (rows : RowList) : Z :=
  snd (fold_left count_step rows (None, 0)).

Definition distinct_actors (rows : RowList) : list string :=
  nodup string_dec (map username rows).

(** [history[i] <= history[i+1]] for every valid index [i]. *)
Definition nondecreasing (history : History) : Prop :=
  forall (i : nat) (x y : Z),
    nth_error history i = Some x -> nth_error history (S i) = Some y -> x <= y.

(** Invariants of the loop of [parse_waffle_rows]. *)

(** The histories are as long as the list of times, and belong to users
    with a count. *)
Definition aligned (st : series_state) : Prop :=
  NoDup (Dict.keys (user_counts st))
  /\ NoDup (Dict.keys (history_lookup st))
  /\ (forall u h, Dict.get u (history_lookup st) = Some h ->
        List.length h = List.length (consumption_times st)
        /\ In u (Dict.keys (user_counts st)))
  /\ (forall u, In u (Dict.keys (user_counts st)) ->
        Dict.get u (history_lookup st) = None -> consumption_times st = []).

(** Every history is non-decreasing and stays below the count of its
    user. *)
Definition bounded (st : series_state) : Prop :=
  forall u h, Dict.get u (history_lookup st) = Some h ->
    nondecreasing h
    /\ forall x, In x h -> x <= Dict.get_default 0 u (user_counts st).

(** Once a row has been handled there is a time in the list. *)
Definition started (st : series_state) : Prop :=
  series_prev_day st <> None -> consumption_times st <> [].

(** The day boundaries of [rows], in order: each as the rows before it and
    the row at which the day of the month changes. *)
Definition snapshot_step (st : RowList * list (RowList * row)) (r : row)
  : RowList * list (RowList * row) :=
  (fst st ++ [r],
   if is_new_day (day (time r)) (last_day (fst st))
   then snd st ++ [(fst st, r)] else snd st).

Definition snapshots (rows : RowList) : list (RowList * row) :=
  snd (fold_left snapshot_step rows ([], [])).

(** The total of [u] over the rows up to and including a day boundary. *)
Definition total_at (u : string) (boundary : RowList * row) : Z :=
  running_total u (fst boundary ++ [snd boundary]).

(** What [parse_waffle_rows] holds after the rows [done]. *)
Definition series_after (done : RowList) (st : series_state) : Prop :=
  series_prev_day st = last_day done
  /\ consumption_times st = map (fun b => time (snd b)) (snapshots done)
  /\ (forall u, In u (Dict.keys (user_counts st)) ->
        Dict.get_default 0 u (user_counts st) = running_total u done)
  /\ (forall u h, Dict.get u (history_lookup st) = Some h ->
        h = map (total_at u) (snapshots done)).

(** The row [r], coming right after the rows [before], is on another day of
    the month than the last of them, or there is none before it. *)
Definition day_changes (before : RowList) (r : row) : Prop :=
  match rev before with
  | [] => True
  | p :: _ => day (time p) <> day (time r)
  end.

(** [rows] has the row [r] right after the rows [before], and the day of the
    month changes there. *)
Definition boundary_at (rows before : RowList) (r : row) : Prop :=
  (exists after, rows = before ++ r :: after) /\ day_changes before r.

(** ** Ranking, from the event sequence alone

    The users in the order in which they are first seen, and the rank of a
    user: the number of users with a larger total, or with the same total and
    seen earlier. *)

Fixpoint first_seen (events : RowList) : list string :=
  match events with
  | [] => []
  | r :: rest =>
      username r
      :: filter (fun u => negb (String.eqb u (username r))) (first_seen rest)
  end.

(** The position of the first [a] in [l] (the length of [l] if there is
    none). *)
Fixpoint index_of (a : string) (l : list string) : nat :=
  match l with
  | [] => 0%nat
  | x :: rest => if String.eqb x a then 0%nat else S (index_of a rest)
  end.

(** [b] is ranked before [a] after [events]. *)
Definition outranked_by (events : RowList) (a b : string) : bool :=
  (running_total a events <? running_total b events)
  || ((running_total b events =? running_total a events)
      && (index_of b (first_seen events) <? index_of a (first_seen events))%nat).

Definition rank (events : RowList) (a : string) : nat :=
  List.length (filter (outranked_by events a) (first_seen events)).

(** [a] has an event among [events] and fewer than [MAX_RANK] users are
    ranked before [a]. *)
Definition ranks_within (MAX_RANK : Z) (events : RowList) (a : string) : Prop :=
  In a (first_seen events) /\ Z.of_nat (rank events a) < MAX_RANK.

(** [x] comes before [y] in [l]. *)
Definition occurs_before (A : Type) (l : list A) (x y : A) : Prop :=
  exists l1 l2, l = l1 ++ y :: l2 /\ In x l1.

(** * Properties *)

(** ** The models on small inputs *)

Example sorted_by_count_is_stable :
  sorted_by_count [("a", 1); ("b", 3); ("c", 1); ("d", 3)]%string
  = ["b"; "d"; "a"; "c"]%string.
Proof. reflexivity. Qed.

Example slice_to_negative : slice_to (-1) [1; 2; 3] = [1; 2].
Proof. reflexivity. Qed.

Example limiting_waffles_flat_tail : limiting_waffles [1; 2; 2; 2] = Some (0, 1).
Proof. reflexivity. Qed.

Example limiting_waffles_empty : limiting_waffles [] = None.
Proof. reflexivity. Qed.

(** A constant history does come out of [parse_waffle_rows]: a user whose
    only event is the first one of the stream. *)
Example constant_tail_outputs :
  pipeline 10 constant_tail =
    Some (mkOutputs [("A", 4); ("B", 2)]%string
            [at_day 1 1; at_day 1 2; at_day 1 3]
            [("A", [4; 4; 4]); ("B", [0; 1; 2])]%string
            [("A", 2); ("B", 0)]%string
            [("A", 1); ("B", 2)]%string).
Proof. vm_compute. reflexivity. Qed.

(** ** The span trimmer *)

Section SpanTrimmer.

Lemma len_cons (A : Type) (x : A) (l : list A) : len (x :: l) = len l + 1.
Proof. unfold len. cbn [List.length]. lia. Qed.

Lemma len_app (A : Type) (l1 l2 : list A) : len (l1 ++ l2) = len l1 + len l2.
Proof. unfold len. rewrite length_app. lia. Qed.

Lemma len_nonneg (A : Type) (l : list A) : 0 <= len l.
Proof. unfold len. lia. Qed.

Lemma len_repeat (A : Type) (x : A) (n : nat) : len (repeat x n) = Z.of_nat n.
Proof. unfold len. now rewrite repeat_length. Qed.

Lemma scan_forwards_run (v : Z) (n : nat) (tail : list Z) (i : Z) :
  scan_forwards (repeat v n ++ tail) i v = scan_forwards tail (i + Z.of_nat n) v.
Proof.
  revert i. induction n as [|n IH]; intro i.
  - cbn. f_equal. lia.
  - cbn [repeat app scan_forwards]. rewrite Z.eqb_refl. cbn [negb].
    rewrite IH. f_equal. lia.
Qed.

Lemma scan_forwards_constant (v : Z) (n : nat) (i : Z) :
  scan_forwards (repeat v n) i v = i + Z.of_nat n.
Proof.
  rewrite <- (app_nil_r (repeat v n)). now rewrite scan_forwards_run.
Qed.

Lemma scan_forwards_change (v c : Z) (n : nat) (tail : list Z) (i : Z) :
  c <> v -> scan_forwards (repeat v n ++ c :: tail) i v = i + Z.of_nat n.
Proof.
  intro Hc. rewrite scan_forwards_run. cbn [scan_forwards].
  apply Z.eqb_neq in Hc. now rewrite Hc.
Qed.

Lemma scan_backwards_constant (v : Z) (n : nat) (i : Z) :
  scan_backwards (repeat v n) i v = i - Z.of_nat n.
Proof.
  revert i. induction n as [|n IH]; intro i.
  - cbn. lia.
  - cbn [repeat scan_backwards]. rewrite Z.eqb_refl. cbn [negb].
    rewrite IH. lia.
Qed.

(** The backward scan leaves the loop once for each element at most. *)
Lemma scan_backwards_lower (l : list Z) (i nx : Z) :
  i - len l <= scan_backwards l i nx.
Proof.
  revert i nx. induction l as [|w l IH]; intros i nx.
  - cbn. unfold len. cbn. lia.
  - cbn [scan_backwards]. rewrite len_cons.
    destruct (negb (w =? nx)).
    + pose proof (len_nonneg l). lia.
    + specialize (IH (i - 1) w). lia.
Qed.

Lemma scan_backwards_upper (w : Z) (l : list Z) (i nx : Z) :
  scan_backwards (w :: l) i nx <= i - 1.
Proof.
  cbn [scan_backwards]. destruct (negb (w =? nx)); [lia|].
  revert w i. induction l as [|w' l IH]; intros w i.
  - cbn. lia.
  - cbn [scan_backwards]. destruct (negb (w' =? w)); [lia|].
    specialize (IH w' (i - 1)). lia.
Qed.

(** A change between two neighbours stops the backward scan there at the
    latest. *)
Lemma scan_backwards_change (l1 l2 : list Z) (x y i nx : Z) :
  x <> y ->
  i - len l1 - 2 <= scan_backwards (l1 ++ x :: y :: l2) i nx.
Proof.
  intro Hxy. revert i nx. induction l1 as [|w l1 IH]; intros i nx.
  - cbn [app scan_backwards]. unfold len; cbn [List.length].
    destruct (negb (x =? nx)); [lia|].
    assert (Hyx : (y =? x) = false) by (apply Z.eqb_neq; congruence).
    rewrite Hyx. cbn [negb]. lia.
  - cbn [app scan_backwards]. rewrite len_cons.
    destruct (negb (w =? nx)).
    + pose proof (len_nonneg l1). lia.
    + specialize (IH (i - 1) w). lia.
Qed.

Lemma constant_repeat (h : History) :
  constant h <-> h = repeat (hd 0 h) (List.length h).
Proof.
  unfold constant. split.
  - intro Hc. apply Forall_eq_repeat. apply Forall_forall.
    intros x Hx. symmetry. now apply Hc.
  - intros Heq x Hx. rewrite Heq in Hx. now apply repeat_spec in Hx.
Qed.

(** A history that is not constant is a run of its first value followed by
    a different value. *)
Lemma not_constant_split (v : Z) (t : list Z) :
  ~ constant (v :: t) ->
  exists n c tail, c <> v /\ v :: t = repeat v (S n) ++ c :: tail.
Proof.
  induction t as [|w t IH]; intro Hn.
  - exfalso. apply Hn. intros x [<-|[]]. reflexivity.
  - destruct (Z.eq_dec w v) as [->|Hwv].
    + destruct IH as (n & c & tail & Hc & Heq).
      * intro Hc. apply Hn. intros x [<-|[<-|Hx]]; cbn; try reflexivity.
        apply (Hc x). now right.
      * exists (S n), c, tail. split; [exact Hc|].
        change (repeat v (S (S n))) with (v :: repeat v (S n)).
        cbn [app]. now rewrite <- Heq.
    + exists 0%nat, w, t. split; [exact Hwv|reflexivity].
Qed.

Lemma rev_repeat_eq (v : Z) (n : nat) : rev (repeat v n) = repeat v n.
Proof.
  induction n as [|n IH]; [reflexivity|].
  cbn [repeat rev]. rewrite IH. symmetry. apply repeat_cons.
Qed.

Lemma limiting_waffles_nonempty (h : History) :
  h <> [] ->
  limiting_waffles h =
    Some (Z.max (scan_forwards h 0 (hd 0 h) - 1) 0,
          Z.min (scan_backwards (rev h) (len h) (hd 0 (rev h)) + 1) (len h)).
Proof.
  intro Hne. unfold limiting_waffles.
  destruct h as [|a t]; [congruence|].
  destruct (rev (a :: t)) as [|b r] eqn:Hr; [|reflexivity].
  apply (f_equal (@List.length Z)) in Hr. rewrite length_rev in Hr. discriminate.
Qed.

Lemma limiting_waffles_constant (v : Z) (n : nat) :
  limiting_waffles (repeat v (S n)) = Some (Z.of_nat n, 1).
Proof.
  rewrite limiting_waffles_nonempty by discriminate.
  rewrite rev_repeat_eq. cbn [repeat hd].
  change (v :: repeat v n) with (repeat v (S n)).
  rewrite scan_backwards_constant, scan_forwards_constant, len_repeat.
  f_equal. f_equal; lia.
Qed.

Lemma limiting_waffles_change (v c : Z) (n : nat) (tail : list Z) :
  c <> v ->
  exists l, limiting_waffles (repeat v (S n) ++ c :: tail) = Some (Z.of_nat n, l)
         /\ Z.of_nat n < l <= len (repeat v (S n) ++ c :: tail).
Proof.
  intro Hc.
  set (h := repeat v (S n) ++ c :: tail).
  assert (Hne : h <> []) by discriminate.
  rewrite (limiting_waffles_nonempty Hne).
  assert (Hrev : rev h = rev tail ++ c :: v :: repeat v n).
  { unfold h. rewrite rev_app_distr. cbn [rev]. rewrite rev_repeat_eq.
    rewrite <- !app_assoc. reflexivity. }
  assert (Hlen : len h = Z.of_nat n + 2 + len tail).
  { unfold h. rewrite len_app, len_repeat, len_cons. lia. }
  assert (Hrt : len (rev tail) = len tail) by (unfold len; now rewrite length_rev).
  pose proof (@scan_backwards_change (rev tail) (repeat v n) c v (len h)
                (hd 0 (rev h)) Hc) as Hlow.
  rewrite <- Hrev in Hlow.
  assert (Hup : scan_backwards (rev h) (len h) (hd 0 (rev h)) <= len h - 1).
  { destruct (rev h) as [|b r] eqn:Hr.
    - destruct (rev tail); discriminate.
    - apply scan_backwards_upper. }
  assert (Hfw : scan_forwards h 0 (hd 0 h) = Z.of_nat (S n)).
  { unfold h at 1. change (hd 0 h) with v.
    rewrite scan_forwards_change by exact Hc. lia. }
  rewrite Hfw. eexists. split.
  - f_equal. f_equal. lia.
  - lia.
Qed.

End SpanTrimmer.

(** C1 (as the code has it): for a non-empty history the trimmer returns a
    pair [(first, last)] with [0 <= first < len(history)] and
    [1 <= last <= len(history)]; [first <= last] holds exactly when the
    history has at most two elements or is not constant. *)
Theorem span_bounds (history : History) :
  history <> [] ->
  exists first last,
    limiting_waffles history = Some (first, last)
    /\ 0 <= first /\ first < len history
    /\ 1 <= last /\ last <= len history
    /\ (first <= last <-> (len history <= 2 \/ ~ constant history)).
Proof.
  intro Hne. destruct history as [|v t]; [congruence|].
  destruct (list_eq_dec Z.eq_dec (v :: t) (repeat v (S (List.length t))))
    as [Hrep|Hrep].
  - assert (Hc : constant (v :: t)) by (apply constant_repeat; exact Hrep).
    exists (Z.of_nat (List.length t)), 1.
    rewrite Hrep at 1. rewrite limiting_waffles_constant.
    rewrite len_cons. unfold len.
    repeat split; try lia.
    intros [Hle|Hn]; [lia|contradiction].
  - assert (Hc : ~ constant (v :: t)).
    { intro Hc. apply Hrep. now apply constant_repeat in Hc. }
    destruct (not_constant_split Hc) as (n & c & tail & Hcv & Heq).
    destruct (@limiting_waffles_change v c n tail Hcv) as (l & Hl & Hrange).
    rewrite <- Heq in Hl, Hrange.
    exists (Z.of_nat n), l. rewrite Hl.
    repeat split; try lia. intros _. now right.
Qed.

Lemma span_bounds_witness :
  [1; 2; 2; 2] <> [] /\
  exists first last,
    limiting_waffles [1; 2; 2; 2] = Some (first, last)
    /\ 0 <= first /\ first < len [1; 2; 2; 2]
    /\ 1 <= last /\ last <= len [1; 2; 2; 2]
    /\ (first <= last <-> (len [1; 2; 2; 2] <= 2 \/ ~ constant [1; 2; 2; 2])).
Proof.
  split; [discriminate|].
  apply (@span_bounds [1; 2; 2; 2]). discriminate.
Defined.

(** C1 as stated fails: the constant history [4, 4, 4] is given the pair
    (2, 1), whose first index lies after its last. *)
Lemma span_first_after_last :
  [4; 4; 4] <> [] /\
  exists first last,
    limiting_waffles [4; 4; 4] = Some (first, last)
    /\ ~ (0 <= first /\ first <= last /\ last <= len [4; 4; 4]).
Proof.
  split; [discriminate|].
  exists 2, 1. split; [reflexivity|]. lia.
Qed.

(** C3 (as the code has it): a constant non-empty history is given
    [first = len(history) - 1] and [last = 1], which is the pair
    [(0, len(history))] only for a history of one element. *)
Theorem constant_span (history : History) :
  history <> [] -> constant history ->
  limiting_waffles history = Some (len history - 1, 1)
  /\ (limiting_waffles history = Some (0, len history) <-> len history = 1).
Proof.
  intros Hne Hc. apply constant_repeat in Hc.
  destruct history as [|v t]; [congruence|].
  cbn [hd List.length] in Hc.
  assert (Hlw : limiting_waffles (v :: t) = Some (len (v :: t) - 1, 1)).
  { rewrite Hc at 1. rewrite limiting_waffles_constant.
    rewrite len_cons. unfold len. f_equal. f_equal. lia. }
  split; [exact Hlw|].
  rewrite Hlw. rewrite len_cons. unfold len. split.
  - intro H. injection H as H1 H2. lia.
  - intro H. f_equal. f_equal; lia.
Qed.

Lemma constant_span_witness :
  limiting_waffles [4; 4; 4] = Some (len [4; 4; 4] - 1, 1)
  /\ (limiting_waffles [4; 4; 4] = Some (0, len [4; 4; 4]) <-> len [4; 4; 4] = 1).
Proof.
  apply (@constant_span [4; 4; 4]).
  - discriminate.
  - intros x Hx. cbn in Hx. cbn. intuition congruence.
Defined.

(** C3 as stated fails: [4, 4, 4] is constant and is given (2, 1), not
    (0, 3). *)
Lemma constant_span_not_full :
  constant [4; 4; 4] /\ [4; 4; 4] <> []
  /\ limiting_waffles [4; 4; 4] <> Some (0, len [4; 4; 4]).
Proof.
  split; [|split].
  - intros x Hx. cbn in Hx. cbn. intuition congruence.
  - discriminate.
  - cbn. discriminate.
Qed.

(** ** Dictionaries *)

Module DictFacts.

Section WithValues.
Variable V : Type.
Implicit Types (d : Dict.t V) (k : string) (v : V).

Lemma get_set_same k v d : Dict.get k (Dict.set k v d) = Some v.
Proof.
  induction d as [|[k' v'] d IH]; cbn.
  - now rewrite String.eqb_refl.
  - destruct (String.eqb_spec k k') as [->|Hne]; cbn.
    + now rewrite String.eqb_refl.
    + destruct (String.eqb_spec k k'); [contradiction|exact IH].
Qed.

Lemma get_set_other k k' v d :
  k' <> k -> Dict.get k' (Dict.set k v d) = Dict.get k' d.
Proof.
  intro Hne. induction d as [|[k0 v0] d IH]; cbn.
  - destruct (String.eqb_spec k' k); [contradiction|reflexivity].
  - destruct (String.eqb_spec k k0) as [->|Hk]; cbn.
    + destruct (String.eqb_spec k' k0); [contradiction|reflexivity].
    + destruct (String.eqb_spec k' k0); [reflexivity|exact IH].
Qed.

Lemma get_set k k' v d :
  Dict.get k' (Dict.set k v d) =
    if String.eqb k' k then Some v else Dict.get k' d.
Proof.
  destruct (String.eqb_spec k' k) as [->|Hne].
  - apply get_set_same.
  - now apply get_set_other.
Qed.

Lemma in_keys_get k d : In k (Dict.keys d) <-> Dict.get k d <> None.
Proof.
  induction d as [|[k' v'] d IH]; cbn.
  - intuition congruence.
  - destruct (String.eqb_spec k k') as [->|Hne].
    + split; [discriminate|now left].
    + rewrite <- IH. intuition congruence.
Qed.

Lemma mem_keys k d : Dict.mem k d = true <-> In k (Dict.keys d).
Proof.
  rewrite in_keys_get. unfold Dict.mem.
  destruct (Dict.get k d); intuition congruence.
Qed.

(** Assigning to a key that is present leaves the keys as they are. *)
Lemma keys_set_present k v d :
  In k (Dict.keys d) -> Dict.keys (Dict.set k v d) = Dict.keys d.
Proof.
  induction d as [|[k' v'] d IH]; cbn; [intros []|].
  intro Hin. destruct (String.eqb_spec k k') as [->|Hne]; cbn; [reflexivity|].
  f_equal. apply IH. destruct Hin as [Heq|Hin]; [congruence|exact Hin].
Qed.

(** Assigning to a new key appends it. *)
Lemma keys_set_absent k v d :
  ~ In k (Dict.keys d) -> Dict.keys (Dict.set k v d) = Dict.keys d ++ [k].
Proof.
  induction d as [|[k' v'] d IH]; cbn; [reflexivity|].
  intro Hin. destruct (String.eqb_spec k k') as [->|Hne]; cbn.
  - exfalso. apply Hin. now left.
  - f_equal. apply IH. intro H. apply Hin. now right.
Qed.

Lemma in_keys_set k k' v d :
  In k' (Dict.keys (Dict.set k v d)) <-> k' = k \/ In k' (Dict.keys d).
Proof.
  destruct (in_dec string_dec k (Dict.keys d)) as [Hin|Hout].
  - rewrite keys_set_present by exact Hin. intuition congruence.
  - rewrite keys_set_absent by exact Hout. rewrite in_app_iff. cbn.
    intuition congruence.
Qed.

Lemma nodup_keys_set k v d :
  NoDup (Dict.keys d) -> NoDup (Dict.keys (Dict.set k v d)).
Proof.
  intro Hnd. destruct (in_dec string_dec k (Dict.keys d)) as [Hin|Hout].
  - now rewrite keys_set_present.
  - rewrite keys_set_absent by exact Hout.
    apply NoDup_app; [exact Hnd|repeat constructor; intros []|].
    intros x Hx [<-|[]]. contradiction.
Qed.

Lemma length_set k v d :
  (List.length (Dict.set k v d) <= S (List.length d))%nat.
Proof.
  induction d as [|[k' v'] d IH]; cbn; [lia|].
  destruct (String.eqb k k'); cbn; lia.
Qed.

Lemma nodup_keys_update d items :
  NoDup (Dict.keys d) -> NoDup (Dict.keys (Dict.update d items)).
Proof.
  unfold Dict.update. revert d.
  induction items as [|[k v] items IH]; intros d Hnd; cbn; [exact Hnd|].
  apply IH. now apply nodup_keys_set.
Qed.

Lemma length_update d items :
  (List.length (Dict.update d items) <= List.length d + List.length items)%nat.
Proof.
  unfold Dict.update. revert d.
  induction items as [|[k v] items IH]; intros d; cbn; [lia|].
  specialize (IH (Dict.set k v d)). pose proof (length_set k v d). lia.
Qed.

Lemma in_keys_update k d items :
  In k (Dict.keys (Dict.update d items))
  <-> In k (Dict.keys d) \/ In k (map fst items).
Proof.
  unfold Dict.update. revert d.
  induction items as [|[k0 v0] items IH]; intros d; cbn [fold_left map fst snd].
  - cbn [In]. intuition.
  - rewrite (IH (Dict.set k0 v0 d)), in_keys_set. cbn [In]. intuition congruence.
Qed.

(** Updating with items that all carry the value [f key]: the keys among
    them get that value, the others keep theirs. *)
Lemma get_update_map (f : string -> V) k d (ks : list string) :
  Dict.get k (Dict.update d (map (fun key => (key, f key)) ks)) =
    if in_dec string_dec k ks then Some (f k) else Dict.get k d.
Proof.
  unfold Dict.update. revert d.
  induction ks as [|k0 ks IH]; intros d; cbn [map fold_left fst snd].
  - now destruct (in_dec string_dec k []).
  - rewrite IH.
    destruct (in_dec string_dec k ks) as [Hin|Hout];
      destruct (in_dec string_dec k (k0 :: ks)) as [Hin'|Hout'];
      try reflexivity.
    + exfalso. apply Hout'. now right.
    + destruct Hin' as [->|Hin']; [apply get_set_same|contradiction].
    + apply get_set_other. intros ->. apply Hout'. now left.
Qed.

Lemma get_in k v d : Dict.get k d = Some v -> In (k, v) d.
Proof.
  induction d as [|[k' v'] d IH]; cbn; [discriminate|].
  destruct (String.eqb_spec k k') as [->|Hne].
  - intros [= ->]. now left.
  - intro H. right. now apply IH.
Qed.

Lemma in_get k v d : NoDup (Dict.keys d) -> In (k, v) d -> Dict.get k d = Some v.
Proof.
  induction d as [|[k' v'] d IH]; cbn; [intros _ []|].
  intros Hnd Hin. inversion Hnd as [|? ? Hout Hnd']; subst.
  destruct (String.eqb_spec k k') as [->|Hne].
  - destruct Hin as [[= ->]|Hin]; [reflexivity|].
    exfalso. apply Hout. change k' with (fst (k', v)). now apply in_map.
  - destruct Hin as [[= -> ->]|Hin]; [congruence|]. now apply IH.
Qed.

End WithValues.

End DictFacts.

(** ** The cohort selector *)

Section CohortSelector.
Variable MAX_RANK : Z.

Lemma last_day_snoc (rows : RowList) (r : row) :
  last_day (rows ++ [r]) = Some (day (time r)).
Proof. unfold last_day, last_day_from. now rewrite fold_left_app. Qed.

Lemma totals_snoc (rows : RowList) (r : row) :
  totals (rows ++ [r]) = add_waffles (username r) (waffles r) (totals rows).
Proof. unfold totals. now rewrite fold_left_app. Qed.

Lemma top_loop_users (rows : RowList) (st : top_state) :
  users (top_loop MAX_RANK rows st) =
    fold_left (fun users r => add_waffles (username r) (waffles r) users)
              rows (users st).
Proof.
  revert st. induction rows as [|r rows IH]; intro st; [reflexivity|].
  unfold top_loop in *. cbn [fold_left]. now rewrite IH.
Qed.

Lemma top_loop_prev_day (rows : RowList) (st : top_state) :
  prev_day (top_loop MAX_RANK rows st) = last_day_from (prev_day st) rows.
Proof.
  revert st. induction rows as [|r rows IH]; intro st; [reflexivity|].
  unfold top_loop, last_day_from in *. cbn [fold_left]. now rewrite IH.
Qed.

(** What one more event does to the cohort. *)
Lemma get_top_users_snoc (rows : RowList) (r : row) :
  get_top_users MAX_RANK (rows ++ [r]) =
    if is_new_day (day (time r)) (last_day rows)
    then Dict.update (get_top_users MAX_RANK rows)
                     (top_snapshot MAX_RANK (totals (rows ++ [r])))
    else get_top_users MAX_RANK rows.
Proof.
  unfold get_top_users, top_loop. rewrite fold_left_app. cbn [fold_left].
  fold (top_loop MAX_RANK rows top_init).
  unfold top_step. cbn [top_users].
  rewrite top_loop_prev_day, top_loop_users, totals_snoc. reflexivity.
Qed.

Lemma snoc_split (A : Type) (l before after : list A) (x y : A) :
  l ++ [x] = before ++ y :: after <->
  (after = [] /\ before = l /\ y = x)
  \/ (exists after', after = after' ++ [x] /\ l = before ++ y :: after').
Proof.
  split.
  - intro H. destruct (@exists_last _ (y :: after)) as (l' & z & Hlast);
      [discriminate|].
    rewrite Hlast, app_assoc in H. apply app_inj_tail in H.
    destruct H as [-> ->].
    destruct l' as [|y' after']; cbn in Hlast.
    + left. injection Hlast as -> ->. rewrite app_nil_r. auto.
    + right. injection Hlast as -> ->. exists after'. auto.
  - intros [(-> & -> & ->)|(after' & -> & ->)]; [reflexivity|].
    now rewrite <- app_assoc.
Qed.

Lemma snapshot_at_nil (before : RowList) (r : row) : ~ snapshot_at [] before r.
Proof. intros [[after H] _]. destruct before; discriminate. Qed.

Lemma snapshot_at_snoc (rows before : RowList) (r r0 : row) :
  snapshot_at (rows ++ [r]) before r0 <->
  (before = rows /\ r0 = r /\ crosses_day rows r) \/ snapshot_at rows before r0.
Proof.
  unfold snapshot_at. split.
  - intros [[after H] Hc]. apply snoc_split in H.
    destruct H as [(_ & -> & ->)|(after' & _ & ->)].
    + left. auto.
    + right. split; [now exists after'|exact Hc].
  - intros [(-> & -> & Hc)|[[after ->] Hc]].
    + split; [now exists []|exact Hc].
    + split; [|exact Hc]. exists (after ++ [r]).
      now rewrite <- app_assoc.
Qed.

Lemma snapshot_at_length (rows before : RowList) (r : row) :
  snapshot_at rows before r -> (List.length before < List.length rows)%nat.
Proof.
  intros [[after ->] _]. rewrite length_app. cbn. lia.
Qed.

Lemma keys_top_snapshot (users : CountLookup) :
  map fst (top_snapshot MAX_RANK users) =
    slice_to MAX_RANK (sorted_by_count users).
Proof. unfold top_snapshot. rewrite map_map. cbn. apply map_id. Qed.

Lemma cohort_keys_snoc (rows : RowList) (r : row) (a : string) :
  In a (Dict.keys (get_top_users MAX_RANK (rows ++ [r]))) <->
  In a (Dict.keys (get_top_users MAX_RANK rows))
  \/ (crosses_day rows r /\ In a (top_ranked MAX_RANK (rows ++ [r]))).
Proof.
  rewrite get_top_users_snoc. unfold crosses_day, top_ranked.
  destruct (is_new_day (day (time r)) (last_day rows)).
  - rewrite DictFacts.in_keys_update, keys_top_snapshot. intuition.
  - intuition discriminate.
Qed.

Lemma cohort_get_snoc (rows : RowList) (r : row) (a : string) :
  Dict.get a (get_top_users MAX_RANK (rows ++ [r])) =
    if is_new_day (day (time r)) (last_day rows)
    then if in_dec string_dec a (top_ranked MAX_RANK (rows ++ [r]))
         then Some (Dict.get_default 0 a (totals (rows ++ [r])))
         else Dict.get a (get_top_users MAX_RANK rows)
    else Dict.get a (get_top_users MAX_RANK rows).
Proof.
  rewrite get_top_users_snoc.
  destruct (is_new_day (day (time r)) (last_day rows)); [|reflexivity].
  unfold top_snapshot, top_ranked.
  apply (DictFacts.get_update_map
           (fun key => Dict.get_default 0 key (totals (rows ++ [r])))).
Qed.

Lemma get_default_add_waffles (a k : string) (n : Z) (users : CountLookup) :
  Dict.get_default 0 a (add_waffles k n users) =
    (if String.eqb k a then n else 0) + Dict.get_default 0 a users.
Proof.
  unfold add_waffles, Dict.get_default. rewrite DictFacts.get_set.
  rewrite (String.eqb_sym k a).
  destruct (String.eqb_spec a k) as [->|Hne]; lia.
Qed.

Lemma running_total_snoc (a : string) (rows : RowList) (r : row) :
  running_total a (rows ++ [r]) =
    (if String.eqb (username r) a then waffles r else 0) + running_total a rows.
Proof.
  induction rows as [|r0 rows IH]; cbn [app running_total]; [lia|].
  rewrite IH. lia.
Qed.

(** What [users[a]] holds after [rows] is the sum of the quantities of the
    events of [a]. *)
Lemma totals_running_total (a : string) (rows : RowList) :
  Dict.get_default 0 a (totals rows) = running_total a rows.
Proof.
  induction rows as [|r rows IH] using rev_ind; [reflexivity|].
  now rewrite totals_snoc, get_default_add_waffles, running_total_snoc, IH.
Qed.

End CohortSelector.

(** The keys of the cohort are the users some snapshot ranks within the first
    [MAX_RANK]. *)
Lemma cohort_keys_snapshots (MAX_RANK : Z) (rows : RowList) (a : string) :
  In a (Dict.keys (get_top_users MAX_RANK rows)) <->
  exists before r,
    snapshot_at rows before r /\ In a (top_ranked MAX_RANK (before ++ [r])).
Proof.
  induction rows as [|r rows IH] using rev_ind.
  - cbn. split; [intros []|].
    intros (before & r & H & _). exact (snapshot_at_nil H).
  - rewrite cohort_keys_snoc, IH. split.
    + intros [(before & r0 & Hs & Hin)|[Hc Hin]].
      * exists before, r0. split; [|exact Hin].
        apply snapshot_at_snoc. now right.
      * exists rows, r. split; [|exact Hin].
        apply snapshot_at_snoc. left. auto.
    + intros (before & r0 & Hs & Hin).
      apply snapshot_at_snoc in Hs.
      destruct Hs as [(-> & -> & Hc)|Hs].
      * right. auto.
      * left. now exists before, r0.
Qed.

(** The value stored for an actor is the running total at the latest
    snapshot that ranks the actor within the first [MAX_RANK]. *)
Lemma cohort_value_latest (MAX_RANK : Z) (rows : RowList) (a : string) (v : Z) :
  Dict.get a (get_top_users MAX_RANK rows) = Some v <->
  exists before r,
    snapshot_at rows before r
    /\ In a (top_ranked MAX_RANK (before ++ [r]))
    /\ v = running_total a (before ++ [r])
    /\ forall before' r',
         snapshot_at rows before' r' ->
         (List.length before < List.length before')%nat ->
         ~ In a (top_ranked MAX_RANK (before' ++ [r'])).
Proof.
  revert v. induction rows as [|r rows IH] using rev_ind; intro v.
  - cbn. split; [discriminate|].
    intros (before & r & H & _). destruct (snapshot_at_nil H).
  - rewrite cohort_get_snoc.
    destruct (is_new_day (day (time r)) (last_day rows)) eqn:Hday;
      [destruct (in_dec string_dec a (top_ranked MAX_RANK (rows ++ [r])))
         as [Hin|Hout]|].
    + (* a snapshot is taken and ranks [a] *)
      rewrite totals_running_total. split.
      * intros [= <-]. exists rows, r.
        split; [|split; [exact Hin|split; [reflexivity|]]].
        -- apply snapshot_at_snoc. left. auto.
        -- intros before' r' Hs Hlt. apply snapshot_at_length in Hs.
           rewrite length_app in Hs. cbn in Hs. lia.
      * intros (before & r0 & Hs & _ & -> & Hlatest).
        apply snapshot_at_snoc in Hs. destruct Hs as [(-> & -> & _)|Hs];
          [reflexivity|].
        exfalso. apply (Hlatest rows r); [|now apply snapshot_at_length in Hs|exact Hin].
        apply snapshot_at_snoc. left. auto.
    + (* a snapshot is taken and leaves [a] out *)
      rewrite IH. split.
      * intros (before & r0 & Hs & Hin & -> & Hlatest).
        exists before, r0.
        split; [|split; [exact Hin|split; [reflexivity|]]].
        -- apply snapshot_at_snoc. now right.
        -- intros before' r' Hs' Hlt. apply snapshot_at_snoc in Hs'.
           destruct Hs' as [(-> & -> & _)|Hs']; [exact Hout|].
           now apply Hlatest.
      * intros (before & r0 & Hs & Hin & -> & Hlatest).
        apply snapshot_at_snoc in Hs. destruct Hs as [(-> & -> & _)|Hs];
          [contradiction|].
        exists before, r0.
        split; [exact Hs|split; [exact Hin|split; [reflexivity|]]].
        intros before' r' Hs' Hlt. apply Hlatest; [|exact Hlt].
        apply snapshot_at_snoc. now right.
    + (* no snapshot *)
      rewrite IH. split.
      * intros (before & r0 & Hs & Hin & -> & Hlatest).
        exists before, r0.
        split; [|split; [exact Hin|split; [reflexivity|]]].
        -- apply snapshot_at_snoc. now right.
        -- intros before' r' Hs' Hlt. apply snapshot_at_snoc in Hs'.
           destruct Hs' as [(_ & _ & Hc)|Hs']; [|now apply Hlatest].
           unfold crosses_day in Hc. congruence.
      * intros (before & r0 & Hs & Hin & -> & Hlatest).
        apply snapshot_at_snoc in Hs. destruct Hs as [(_ & _ & Hc)|Hs].
        { unfold crosses_day in Hc. congruence. }
        exists before, r0.
        split; [exact Hs|split; [exact Hin|split; [reflexivity|]]].
        intros before' r' Hs' Hlt. apply Hlatest; [|exact Hlt].
        apply snapshot_at_snoc. now right.
Qed.

(** ** Sizes *)

Section CohortSize.

Lemma insert_by_count_perm (kv : string * Z) (l : list (string * Z)) :
  Permutation (insert_by_count kv l) (kv :: l).
Proof.
  induction l as [|kv' l IH]; cbn; [reflexivity|].
  destruct (snd kv <? snd kv'); [|reflexivity].
  rewrite IH. apply perm_swap.
Qed.

Lemma sorted_items_perm (users : CountLookup) :
  Permutation (fold_right insert_by_count [] users) users.
Proof.
  induction users as [|kv users IH]; cbn; [reflexivity|].
  rewrite insert_by_count_perm. now constructor.
Qed.

Lemma sorted_by_count_perm (users : CountLookup) :
  Permutation (sorted_by_count users) (Dict.keys users).
Proof. unfold sorted_by_count, Dict.keys. apply Permutation_map, sorted_items_perm. Qed.

Lemma slice_to_incl (A : Type) (n : Z) (l : list A) (x : A) :
  In x (slice_to n l) -> In x l.
Proof.
  assert (Hfirst : forall k, In x (firstn k l) -> In x l).
  { intros k H. rewrite <- (firstn_skipn k l). apply in_or_app. now left. }
  unfold slice_to. destruct (0 <=? n); apply Hfirst.
Qed.

Lemma slice_to_length (A : Type) (n : Z) (l : list A) :
  0 <= n -> len (slice_to n l) <= n.
Proof.
  intro Hn. unfold slice_to, len.
  destruct (Z.leb_spec 0 n); [|lia].
  rewrite length_firstn. lia.
Qed.

Lemma slice_to_all (A : Type) (n : Z) (l : list A) :
  len l <= n -> slice_to n l = l.
Proof.
  intro Hn. unfold slice_to. unfold len in *.
  destruct (Z.leb_spec 0 n); [|lia].
  apply firstn_all2. lia.
Qed.

Lemma keys_add_waffles (k a : string) (n : Z) (users : CountLookup) :
  In a (Dict.keys (add_waffles k n users)) <-> a = k \/ In a (Dict.keys users).
Proof. unfold add_waffles. apply DictFacts.in_keys_set. Qed.

Lemma keys_totals (rows : RowList) (a : string) :
  In a (Dict.keys (totals rows)) <-> In a (map username rows).
Proof.
  induction rows as [|r rows IH] using rev_ind; [reflexivity|].
  rewrite totals_snoc, keys_add_waffles, IH, map_app, in_app_iff.
  cbn. intuition congruence.
Qed.

Lemma nodup_keys_totals (rows : RowList) : NoDup (Dict.keys (totals rows)).
Proof.
  induction rows as [|r rows IH] using rev_ind; [constructor|].
  rewrite totals_snoc. now apply DictFacts.nodup_keys_set.
Qed.

Lemma nodup_keys_cohort (MAX_RANK : Z) (rows : RowList) :
  NoDup (Dict.keys (get_top_users MAX_RANK rows)).
Proof.
  induction rows as [|r rows IH] using rev_ind; [constructor|].
  rewrite get_top_users_snoc.
  destruct (is_new_day _ _); [|exact IH].
  now apply DictFacts.nodup_keys_update.
Qed.

Lemma len_keys (V : Type) (d : Dict.t V) : len (Dict.keys d) = len d.
Proof. unfold len, Dict.keys. now rewrite length_map. Qed.

(** A user of the cohort has an event. *)
Lemma cohort_keys_actors (MAX_RANK : Z) (rows : RowList) (a : string) :
  In a (Dict.keys (get_top_users MAX_RANK rows)) -> In a (map username rows).
Proof.
  intro Hin. apply cohort_keys_snapshots in Hin.
  destruct Hin as (before & r & [[after ->] _] & Hin).
  unfold top_ranked in Hin. apply slice_to_incl in Hin.
  apply (Permutation_in _ (sorted_by_count_perm _)) in Hin.
  apply keys_totals in Hin.
  rewrite map_app in *. rewrite in_app_iff in *. cbn in *. intuition.
Qed.

Lemma count_step_day (rows : RowList) (st : option Z * Z) :
  fst (fold_left count_step rows st) = last_day_from (fst st) rows.
Proof.
  revert st. induction rows as [|r rows IH]; intro st; [reflexivity|].
  unfold last_day_from in *. cbn [fold_left]. now rewrite IH.
Qed.

Lemma day_boundaries_snoc (rows : RowList) (r : row) :
  day_boundaries (rows ++ [r]) =
    day_boundaries rows
    + if is_new_day (day (time r)) (last_day rows) then 1 else 0.
Proof.
  unfold day_boundaries. rewrite fold_left_app. cbn [fold_left count_step snd].
  now rewrite count_step_day.
Qed.

Lemma day_boundaries_nonneg (rows : RowList) : 0 <= day_boundaries rows.
Proof.
  induction rows as [|r rows IH] using rev_ind; [cbn; lia|].
  rewrite day_boundaries_snoc. destruct (is_new_day _ _); lia.
Qed.

Lemma cohort_size_snapshots (MAX_RANK : Z) (rows : RowList) :
  0 <= MAX_RANK ->
  len (get_top_users MAX_RANK rows) <= MAX_RANK * day_boundaries rows.
Proof.
  intro Hm. induction rows as [|r rows IH] using rev_ind; [cbn; lia|].
  rewrite get_top_users_snoc, day_boundaries_snoc.
  destruct (is_new_day _ _); [|lia].
  pose proof (DictFacts.length_update (get_top_users MAX_RANK rows)
                (top_snapshot MAX_RANK (totals (rows ++ [r])))) as Hup.
  pose proof (@slice_to_length _ MAX_RANK
                (sorted_by_count (totals (rows ++ [r]))) Hm) as Hsl.
  unfold top_snapshot in *. rewrite length_map in Hup.
  unfold len in *. lia.
Qed.

Lemma cohort_size_actors (MAX_RANK : Z) (rows : RowList) :
  len (get_top_users MAX_RANK rows) <= len (distinct_actors rows).
Proof.
  rewrite <- len_keys. unfold len. apply inj_le.
  apply NoDup_incl_length; [apply nodup_keys_cohort|].
  intros a Hin. apply nodup_In. now apply cohort_keys_actors in Hin.
Qed.

Lemma totals_size_actors (rows before after : RowList) :
  rows = before ++ after ->
  len (totals before) <= len (distinct_actors rows).
Proof.
  intros ->. rewrite <- len_keys. unfold len. apply inj_le.
  apply NoDup_incl_length; [apply nodup_keys_totals|].
  intros a Hin. apply nodup_In. apply keys_totals in Hin.
  rewrite map_app, in_app_iff. now left.
Qed.

(** With fewer than [MAX_RANK] users in all, a snapshot takes every user
    seen so far. *)
Lemma cohort_takes_all (MAX_RANK : Z) (rows before : RowList) (r : row) (a : string) :
  len (distinct_actors rows) < MAX_RANK ->
  snapshot_at rows before r ->
  In a (map username (before ++ [r])) ->
  In a (Dict.keys (get_top_users MAX_RANK rows)).
Proof.
  intros Hfew Hs Hin. apply cohort_keys_snapshots.
  exists before, r. split; [exact Hs|].
  unfold top_ranked. rewrite slice_to_all.
  - apply (Permutation_in _ (Permutation_sym (sorted_by_count_perm _))).
    now apply keys_totals.
  - destruct Hs as [[after Hrows] _].
    assert (Hlen : len (sorted_by_count (totals (before ++ [r])))
                   = len (totals (before ++ [r]))).
    { rewrite <- len_keys. unfold len. f_equal.
      apply Permutation_length, sorted_by_count_perm. }
    pose proof (@totals_size_actors rows (before ++ [r]) after) as Hsz.
    rewrite <- app_assoc in Hsz. specialize (Hsz Hrows). lia.
Qed.

(** *** The snapshot takes the users with the largest totals *)

Lemma insert_by_count_sorted (kv : string * Z) (l : list (string * Z)) :
  StronglySorted outranks l -> StronglySorted outranks (insert_by_count kv l).
Proof.
  induction l as [|kv' l IH]; intro Hs; cbn.
  - constructor; constructor.
  - inversion Hs as [|? ? Hl Hall]; subst.
    destruct (Z.ltb_spec (snd kv) (snd kv')) as [Hlt|Hge].
    + constructor; [now apply IH|].
      apply Forall_forall. intros z Hz.
      apply (Permutation_in _ (insert_by_count_perm kv l)) in Hz.
      destruct Hz as [<-|Hz]; [unfold outranks; lia|].
      rewrite Forall_forall in Hall. now apply Hall.
    + constructor; [exact Hs|].
      constructor; [exact Hge|].
      apply Forall_forall. intros z Hz. rewrite Forall_forall in Hall.
      specialize (Hall z Hz). unfold outranks in *. lia.
Qed.

Lemma sorted_items_sorted (users : CountLookup) :
  StronglySorted outranks (fold_right insert_by_count [] users).
Proof.
  induction users as [|kv users IH]; cbn; [constructor|].
  now apply insert_by_count_sorted.
Qed.

Lemma sorted_app_outranks (l1 l2 : list (string * Z)) (x y : string * Z) :
  StronglySorted outranks (l1 ++ l2) -> In x l1 -> In y l2 -> outranks x y.
Proof.
  induction l1 as [|z l1 IH]; cbn; intros Hs Hx Hy; [destruct Hx|].
  inversion Hs as [|? ? Hl Hall]; subst.
  destruct Hx as [<-|Hx]; [|now apply IH].
  rewrite Forall_forall in Hall. apply Hall, in_or_app. now right.
Qed.

(** [l[:n]] with [0 <= n] keeps the first [n] elements. *)
Lemma slice_to_firstn (A : Type) (n : Z) (l : list A) :
  0 <= n -> slice_to n l = firstn (Z.to_nat n) l.
Proof. intro Hn. unfold slice_to. now destruct (Z.leb_spec 0 n); [|lia]. Qed.

(** For [0 <= MAX_RANK] the snapshot holds [MAX_RANK] users, or all of them
    when there are fewer. *)
Lemma top_ranked_length (MAX_RANK : Z) (events : RowList) :
  0 <= MAX_RANK ->
  len (top_ranked MAX_RANK events) = Z.min MAX_RANK (len (totals events)).
Proof.
  intro Hm. unfold top_ranked. rewrite slice_to_firstn by exact Hm.
  unfold len. rewrite length_firstn.
  rewrite (Permutation_length (sorted_by_count_perm (totals events))).
  unfold Dict.keys. rewrite length_map. lia.
Qed.

(** A user the snapshot leaves out has no larger a running total than a user
    it takes. *)
Lemma top_ranked_outranks (MAX_RANK : Z) (events : RowList) (a b : string) :
  0 <= MAX_RANK ->
  In a (top_ranked MAX_RANK events) ->
  In b (map username events) ->
  ~ In b (top_ranked MAX_RANK events) ->
  running_total b events <= running_total a events.
Proof.
  intros Hm Ha Hb Hnb. unfold top_ranked in *.
  rewrite slice_to_firstn in * by exact Hm.
  unfold sorted_by_count in *.
  set (items := fold_right insert_by_count [] (totals events)) in *.
  set (k := Z.to_nat MAX_RANK) in *.
  assert (Hperm : Permutation items (totals events)) by apply sorted_items_perm.
  assert (Hval : forall u v, In (u, v) items -> v = running_total u events).
  { intros u v Hin. apply (Permutation_in _ Hperm) in Hin.
    apply (@DictFacts.in_get _ _ _ _ (nodup_keys_totals events)) in Hin.
    rewrite <- totals_running_total. unfold Dict.get_default. now rewrite Hin. }
  rewrite firstn_map in Ha. apply in_map_iff in Ha.
  destruct Ha as ([a' va] & Heq & Ha). cbn in Heq. subst a'.
  apply keys_totals in Hb.
  apply (Permutation_in _ (Permutation_sym (Permutation_map fst Hperm))) in Hb.
  apply in_map_iff in Hb. destruct Hb as ([b' vb] & Heq & Hb). cbn in Heq. subst b'.
  assert (Hskip : In (b, vb) (skipn k items)).
  { rewrite <- (firstn_skipn k items) in Hb. apply in_app_or in Hb.
    destruct Hb as [Hb|Hb]; [|exact Hb].
    exfalso. apply Hnb. rewrite firstn_map.
    change b with (fst (b, vb)). now apply in_map. }
  pose proof (sorted_items_sorted (totals events)) as Hs. fold items in Hs.
  rewrite <- (firstn_skipn k items) in Hs.
  pose proof (@sorted_app_outranks _ _ _ _ Hs Ha Hskip) as Hout.
  unfold outranks in Hout. cbn in Hout.
  rewrite <- (Hval a va), <- (Hval b vb); [exact Hout| |].
  - rewrite <- (firstn_skipn k items). apply in_or_app. now right.
  - rewrite <- (firstn_skipn k items). apply in_or_app. now left.
Qed.

End CohortSize.

(** C4 (as the code has it): each day-boundary snapshot adds at most
    [MAX_RANK] actors, so the cohort has at most [MAX_RANK] times the number
    of day boundaries actors, and never more than there are distinct actors;
    when fewer than [MAX_RANK] distinct actors appear in the whole stream,
    every actor seen up to a day-boundary event is in the cohort. *)
Theorem cohort_size (MAX_RANK : Z) (rows : RowList) :
  0 < MAX_RANK ->
  len (get_top_users MAX_RANK rows) <= MAX_RANK * day_boundaries rows
  /\ len (get_top_users MAX_RANK rows) <= len (distinct_actors rows)
  /\ (len (distinct_actors rows) < MAX_RANK ->
      forall before r a,
        snapshot_at rows before r ->
        In a (map username (before ++ [r])) ->
        In a (Dict.keys (get_top_users MAX_RANK rows))).
Proof.
  intro Hm. split; [|split].
  - apply cohort_size_snapshots. lia.
  - apply cohort_size_actors.
  - intros Hfew before r a. now apply cohort_takes_all.
Qed.

Lemma cohort_size_witness :
  0 < 1 /\
  (len (get_top_users 1 overtaken) <= 1 * day_boundaries overtaken
   /\ len (get_top_users 1 overtaken) <= len (distinct_actors overtaken)
   /\ (len (distinct_actors overtaken) < 1 ->
       forall before r a,
         snapshot_at overtaken before r ->
         In a (map username (before ++ [r])) ->
         In a (Dict.keys (get_top_users 1 overtaken)))).
Proof.
  split; [lia|]. apply (@cohort_size 1 overtaken). lia.
Defined.

(** C4 as stated fails: with [MAX_RANK = 1] and two actors, each first on
    one of two days, both actors are in the cohort. *)
Lemma cohort_larger_than_max_rank :
  0 < 1
  /\ ~ (len (distinct_actors overtaken) < 1)
  /\ ~ (len (get_top_users 1 overtaken) <= 1).
Proof.
  assert (Hactors : len (distinct_actors overtaken) = 2) by (vm_compute; reflexivity).
  assert (Hcohort : len (get_top_users 1 overtaken) = 2) by (vm_compute; reflexivity).
  rewrite Hactors, Hcohort. lia.
Qed.

(** Nor are all actors included when there are fewer than [MAX_RANK]: an
    actor whose only events follow the last day boundary is left out. *)
Lemma cohort_misses_same_day_newcomer :
  len (distinct_actors same_day_newcomer) < 10
  /\ In "B"%string (distinct_actors same_day_newcomer)
  /\ ~ In "B"%string (Dict.keys (get_top_users 10 same_day_newcomer)).
Proof.
  assert (Hactors : distinct_actors same_day_newcomer = ["A"; "B"]%string)
    by (vm_compute; reflexivity).
  assert (Hcohort : get_top_users 10 same_day_newcomer = [("A"%string, 5)])
    by (vm_compute; reflexivity).
  rewrite Hactors, Hcohort. split; [|split].
  - unfold len. cbn. lia.
  - right. left. reflexivity.
  - intros [H|[]]. discriminate.
Qed.

(** ** The series builder *)

Section SeriesBuilder.

Lemma add_existing_some (k : string) (n : Z) (uc uc' : CountLookup) :
  add_existing k n uc = Some uc' ->
  exists v, Dict.get k uc = Some v /\ uc' = Dict.set k (v + n) uc.
Proof.
  unfold add_existing. destruct (Dict.get k uc) as [v|]; [|discriminate].
  intros [= <-]. now exists v.
Qed.

Lemma add_existing_keys (k : string) (n : Z) (uc uc' : CountLookup) :
  add_existing k n uc = Some uc' -> Dict.keys uc' = Dict.keys uc.
Proof.
  intro H. apply add_existing_some in H. destruct H as (v & Hget & ->).
  apply DictFacts.keys_set_present. apply DictFacts.in_keys_get. congruence.
Qed.

Lemma add_existing_present (k : string) (n : Z) (uc : CountLookup) :
  In k (Dict.keys uc) -> exists uc', add_existing k n uc = Some uc'.
Proof.
  intro Hin. apply DictFacts.in_keys_get in Hin. unfold add_existing.
  destruct (Dict.get k uc) as [v|]; [eauto|congruence].
Qed.

(** The counts only grow when the quantities are not negative. *)
Lemma add_existing_grows (k a : string) (n : Z) (uc uc' : CountLookup) :
  0 <= n -> add_existing k n uc = Some uc' ->
  Dict.get_default 0 a uc <= Dict.get_default 0 a uc'.
Proof.
  intros Hn H. apply add_existing_some in H. destruct H as (v & Hget & ->).
  unfold Dict.get_default. rewrite DictFacts.get_set.
  destruct (String.eqb_spec a k) as [->|Hne]; [rewrite Hget|]; lia.
Qed.

(** The loop over [user_counts.items()]: every user of [user_counts] gets
    the user's count appended, once. *)
Lemma get_append_counts (uc : CountLookup) (h : HistoryLookup) (u : string) :
  NoDup (Dict.keys uc) ->
  Dict.get u (append_counts uc h) =
    match Dict.get u uc with
    | Some c => Some (Dict.get_default [] u h ++ [c])
    | None => Dict.get u h
    end.
Proof.
  unfold append_counts. revert h.
  induction uc as [|[k c] uc IH]; intros h Hnd; [reflexivity|].
  cbn [Dict.keys map fst] in Hnd. inversion Hnd as [|? ? Hout Hnd']; subst.
  cbn [fold_left Dict.get]. rewrite (IH _ Hnd').
  unfold append_count. cbn [fst snd].
  destruct (String.eqb_spec u k) as [->|Hne].
  - assert (Hnone : Dict.get k uc = None).
    { destruct (Dict.get k uc) eqn:E; [|reflexivity].
      exfalso. apply Hout. apply DictFacts.in_keys_get. fold (Dict.keys uc).
      congruence. }
    rewrite Hnone. apply DictFacts.get_set_same.
  - unfold Dict.get_default.
    rewrite !DictFacts.get_set_other by exact Hne. reflexivity.
Qed.

Lemma nodup_keys_append_counts (uc : CountLookup) (h : HistoryLookup) :
  NoDup (Dict.keys h) -> NoDup (Dict.keys (append_counts uc h)).
Proof.
  unfold append_counts. revert h.
  induction uc as [|[k c] uc IH]; intros h Hnd; [exact Hnd|].
  cbn [fold_left]. apply IH. unfold append_count.
  now apply DictFacts.nodup_keys_set.
Qed.

(** What one iteration does, when it does not raise. *)
Lemma series_step_some (st st' : series_state) (r : row) :
  series_step st r = Some st' ->
  exists uc',
    add_existing (username r) (waffles r) (user_counts st) = Some uc'
    /\ user_counts st' = uc'
    /\ series_prev_day st' = Some (day (time r))
    /\ ((is_new_day (day (time r)) (series_prev_day st) = true
         /\ consumption_times st' = consumption_times st ++ [time r]
         /\ history_lookup st' = append_counts uc' (history_lookup st))
        \/ (is_new_day (day (time r)) (series_prev_day st) = false
            /\ consumption_times st' = consumption_times st
            /\ history_lookup st' = history_lookup st)).
Proof.
  unfold series_step.
  destruct (add_existing (username r) (waffles r) (user_counts st))
    as [uc'|]; [|discriminate].
  destruct (is_new_day (day (time r)) (series_prev_day st));
    intros [= <-]; exists uc'; cbn; intuition.
Qed.

Lemma series_loop_invariant (P : series_state -> Prop) (Q : row -> Prop) :
  (forall st r st', P st -> Q r -> series_step st r = Some st' -> P st') ->
  forall rows st st',
    Forall Q rows -> P st -> series_loop rows st = Some st' -> P st'.
Proof.
  intros Hstep rows. induction rows as [|r rows IH]; intros st st' HQ HP Hloop.
  - cbn in Hloop. now injection Hloop as <-.
  - cbn in Hloop. inversion HQ as [|? ? Hr Hrows]; subst.
    destruct (series_step st r) as [st1|] eqn:Hst; [|discriminate].
    apply (IH st1 st'); eauto.
Qed.

(** The loop does not raise when every row is of a user with a count. *)
Lemma series_loop_total (rows : RowList) (st : series_state) :
  Forall (fun r => In (username r) (Dict.keys (user_counts st))) rows ->
  exists st', series_loop rows st = Some st'.
Proof.
  revert st. induction rows as [|r rows IH]; intros st Hall; [now exists st|].
  inversion Hall as [|? ? Hr Hrows]; subst. cbn [series_loop].
  destruct (@add_existing_present (username r) (waffles r) _ Hr) as [uc' Huc].
  assert (Hst : exists st1, series_step st r = Some st1
                            /\ user_counts st1 = uc').
  { unfold series_step. rewrite Huc. destruct (is_new_day _ _); eauto. }
  destruct Hst as (st1 & Hst & Hcounts). rewrite Hst. apply IH.
  rewrite Hcounts, (add_existing_keys _ _ _ Huc). exact Hrows.
Qed.

Lemma aligned_step (st st' : series_state) (r : row) :
  aligned st -> series_step st r = Some st' -> aligned st'.
Proof.
  intros (Hnd & Hndh & Hlen & Hnone) Hst.
  apply series_step_some in Hst.
  destruct Hst as (uc' & Hadd & Huc & _ & Hcase).
  pose proof (add_existing_keys _ _ _ Hadd) as Hkeys.
  unfold aligned. rewrite Huc, Hkeys.
  destruct Hcase as [(_ & -> & ->)|(_ & -> & ->)].
  - assert (Hnd' : NoDup (Dict.keys uc')) by now rewrite Hkeys.
    split; [exact Hnd|]. split; [now apply nodup_keys_append_counts|].
    split.
    + intros u h. rewrite (@get_append_counts uc' _ u Hnd').
      destruct (Dict.get u uc') as [c|] eqn:Hc.
      * intros [= <-]. split.
        -- rewrite !length_app. unfold Dict.get_default.
           match goal with
           | |- context [match ?g with Some _ => _ | None => _ end] =>
               destruct g as [h0|] eqn:Hh
           end.
           ++ destruct (Hlen _ _ Hh) as [Hl _]. now rewrite Hl.
           ++ rewrite (Hnone u); [reflexivity| |exact Hh].
              rewrite <- Hkeys. apply DictFacts.in_keys_get. congruence.
        -- rewrite <- Hkeys. apply DictFacts.in_keys_get. congruence.
      * intro Hh. destruct (Hlen _ _ Hh) as [_ Hin].
        rewrite <- Hkeys in Hin. apply DictFacts.in_keys_get in Hin.
        congruence.
    + intros u Hin. rewrite (@get_append_counts uc' _ u Hnd').
      rewrite <- Hkeys in Hin. apply DictFacts.in_keys_get in Hin.
      destruct (Dict.get u uc'); [discriminate|congruence].
  - auto.
Qed.

Lemma keys_zero_counts (top : CountLookup) :
  Dict.keys (zero_counts top) = Dict.keys top.
Proof. unfold zero_counts, Dict.keys. rewrite map_map. reflexivity. Qed.

Lemma aligned_init (MAX_RANK : Z) (rows : RowList) :
  aligned (series_init (get_top_users MAX_RANK rows)).
Proof.
  unfold aligned, series_init.
  cbn [user_counts history_lookup consumption_times].
  rewrite keys_zero_counts.
  split; [apply nodup_keys_cohort|]. split; [constructor|].
  split; [discriminate|reflexivity].
Qed.

Lemma cohort_rows_counted (top : CountLookup) (rows : RowList) :
  Forall (fun r => In (username r) (Dict.keys (user_counts (series_init top))))
         (cohort_rows top rows).
Proof.
  apply Forall_forall. intros r Hr. unfold cohort_rows in Hr.
  apply filter_In in Hr. destruct Hr as [_ Hmem].
  cbn [series_init user_counts].
  rewrite keys_zero_counts. now apply DictFacts.mem_keys.
Qed.

(** [parse_waffle_rows] does not raise. *)
Lemma parse_waffle_rows_total (MAX_RANK : Z) (rows : RowList) :
  exists st,
    series_loop (cohort_rows (get_top_users MAX_RANK rows) rows)
                (series_init (get_top_users MAX_RANK rows)) = Some st
    /\ parse_waffle_rows MAX_RANK rows
       = Some (consumption_times st, history_lookup st).
Proof.
  destruct (@series_loop_total _ _
              (cohort_rows_counted (get_top_users MAX_RANK rows) rows))
    as [st Hst].
  exists st. split; [exact Hst|]. unfold parse_waffle_rows. now rewrite Hst.
Qed.

Lemma nondecreasing_snoc (h : History) (c : Z) :
  nondecreasing h -> (forall x, In x h -> x <= c) -> nondecreasing (h ++ [c]).
Proof.
  intros Hh Hc i x y Hx Hy.
  destruct (Nat.lt_ge_cases (S i) (List.length h)) as [Hlt|Hge].
  - rewrite nth_error_app1 in Hx by lia. rewrite nth_error_app1 in Hy by lia.
    exact (Hh i x y Hx Hy).
  - assert (Hsi : (S i < List.length (h ++ [c]))%nat).
    { apply nth_error_Some. congruence. }
    rewrite length_app in Hsi. cbn in Hsi.
    rewrite nth_error_app1 in Hx by lia.
    rewrite nth_error_app2 in Hy by lia.
    replace (S i - List.length h)%nat with 0%nat in Hy by lia.
    injection Hy as <-. apply Hc. eapply nth_error_In. exact Hx.
Qed.

Lemma bounded_step (st st' : series_state) (r : row) :
  aligned st -> bounded st -> 0 <= waffles r ->
  series_step st r = Some st' -> bounded st'.
Proof.
  intros (Hnd & _ & Hlen & _) Hb Hr Hst.
  apply series_step_some in Hst.
  destruct Hst as (uc' & Hadd & Huc & _ & Hcase).
  pose proof (add_existing_keys _ _ _ Hadd) as Hkeys.
  pose proof (fun a => @add_existing_grows _ a _ _ _ Hr Hadd) as Hgrow.
  unfold bounded. rewrite Huc.
  destruct Hcase as [(_ & _ & ->)|(_ & _ & ->)].
  - assert (Hnd' : NoDup (Dict.keys uc')) by now rewrite Hkeys.
    intros u h. rewrite (@get_append_counts uc' _ u Hnd').
    destruct (Dict.get u uc') as [c|] eqn:Hc.
    + intros [= <-].
      assert (Hcu : Dict.get_default 0 u uc' = c)
        by (unfold Dict.get_default; now rewrite Hc).
      rewrite Hcu.
      assert (Hold : nondecreasing (Dict.get_default [] u (history_lookup st))
                     /\ forall x, In x (Dict.get_default [] u (history_lookup st))
                                  -> x <= c).
      { unfold Dict.get_default.
        match goal with
        | |- context [match ?g with Some _ => _ | None => _ end] =>
            destruct g as [h0|] eqn:Hh
        end.
        - destruct (Hb _ _ Hh) as [Hmono Hle]. split; [exact Hmono|].
          intros x Hx. specialize (Hle x Hx). specialize (Hgrow u). lia.
        - split; [|intros x []].
          intros i x y Hx. destruct i; discriminate. }
      destruct Hold as [Hmono Hle]. split.
      * now apply nondecreasing_snoc.
      * intros x Hx. apply in_app_or in Hx. destruct Hx as [Hx|[<-|[]]];
          [now apply Hle|lia].
    + intro Hh. destruct (Hlen _ _ Hh) as [_ Hin].
      rewrite <- Hkeys in Hin. apply DictFacts.in_keys_get in Hin.
      congruence.
  - intros u h Hh. destruct (Hb _ _ Hh) as [Hmono Hle]. split; [exact Hmono|].
    intros x Hx. specialize (Hle x Hx). specialize (Hgrow u). lia.
Qed.

Lemma started_step (st st' : series_state) (r : row) :
  started st -> series_step st r = Some st' ->
  started st' /\ series_prev_day st' <> None.
Proof.
  intros Hs Hst. apply series_step_some in Hst.
  destruct Hst as (uc' & _ & _ & Hprev & Hcase).
  split; [|congruence]. intros _.
  destruct Hcase as [(_ & -> & _)|(Hday & -> & _)].
  - destruct (consumption_times st); discriminate.
  - apply Hs. intro Hnone. rewrite Hnone in Hday. discriminate.
Qed.

Lemma series_loop_started (rows : RowList) (st st' : series_state) :
  started st -> series_loop rows st = Some st' ->
  started st' /\ (rows <> [] -> consumption_times st' <> []).
Proof.
  revert st. induction rows as [|r rows IH]; intros st Hs Hloop.
  - cbn in Hloop. injection Hloop as <-. split; [exact Hs|congruence].
  - cbn in Hloop. destruct (series_step st r) as [st1|] eqn:Hst; [|discriminate].
    destruct (@started_step _ _ _ Hs Hst) as [Hs1 Hp1].
    destruct (IH _ Hs1 Hloop) as [Hs' Hne]. split; [exact Hs'|]. intros _.
    destruct rows as [|r' rows'].
    + cbn in Hloop. injection Hloop as <-. now apply Hs1.
    + apply Hne. discriminate.
Qed.

Lemma series_loop_keys (rows : RowList) (st st' : series_state) :
  series_loop rows st = Some st' ->
  Dict.keys (user_counts st') = Dict.keys (user_counts st).
Proof.
  revert st. induction rows as [|r rows IH]; intros st Hloop.
  - cbn in Hloop. now injection Hloop as <-.
  - cbn in Hloop. destruct (series_step st r) as [st1|] eqn:Hst; [|discriminate].
    rewrite (IH _ Hloop). apply series_step_some in Hst.
    destruct Hst as (uc' & Hadd & -> & _). now apply add_existing_keys in Hadd.
Qed.

(** A user of the cohort has a row among the rows that are kept. *)
Lemma cohort_rows_nonempty (MAX_RANK : Z) (rows : RowList) (u : string) :
  In u (Dict.keys (get_top_users MAX_RANK rows)) ->
  cohort_rows (get_top_users MAX_RANK rows) rows <> [].
Proof.
  intro Hin. pose proof (cohort_keys_actors _ _ _ Hin) as Hact.
  apply in_map_iff in Hact. destruct Hact as (r & <- & Hr).
  assert (Hkept : In r (cohort_rows (get_top_users MAX_RANK rows) rows)).
  { apply filter_In. split; [exact Hr|]. now apply DictFacts.mem_keys. }
  intro Hnil. rewrite Hnil in Hkept. destruct Hkept.
Qed.

End SeriesBuilder.

Lemma series_result (MAX_RANK : Z) (rows : RowList) :
  exists st,
    parse_waffle_rows MAX_RANK rows = Some (consumption_times st, history_lookup st)
    /\ aligned st
    /\ Dict.keys (user_counts st) = Dict.keys (get_top_users MAX_RANK rows)
    /\ (get_top_users MAX_RANK rows <> [] -> consumption_times st <> [])
    /\ ((forall r, In r rows -> 0 <= waffles r) -> bounded st).
Proof.
  destruct (parse_waffle_rows_total MAX_RANK rows) as (st & Hloop & Hparse).
  set (top := get_top_users MAX_RANK rows) in *.
  assert (Haligned : aligned st).
  { apply (@series_loop_invariant aligned (fun _ => True))
      with (rows := cohort_rows top rows) (st := series_init top).
    - intros st0 r st1 H0 _ Hstep. exact (@aligned_step _ _ _ H0 Hstep).
    - apply Forall_forall. auto.
    - apply aligned_init.
    - exact Hloop. }
  exists st. split; [exact Hparse|]. split; [exact Haligned|]. split; [|split].
  - rewrite (@series_loop_keys _ _ _ Hloop). apply keys_zero_counts.
  - intro Hne.
    assert (Hstart : started (series_init top)) by (intro H; now cbn in H).
    destruct (@series_loop_started _ _ _ Hstart Hloop) as [_ Hrows].
    apply Hrows. destruct top as [|[u c] top'] eqn:Htop; [congruence|].
    rewrite <- Htop. apply (@cohort_rows_nonempty MAX_RANK rows u).
    fold top. rewrite Htop. now left.
  - intro Hpos.
    assert (Hboth : aligned st /\ bounded st); [|tauto].
    apply (@series_loop_invariant (fun s => aligned s /\ bounded s)
             (fun r => 0 <= waffles r))
      with (rows := cohort_rows top rows) (st := series_init top).
    + intros st0 r st1 [H0 Hb0] Hr Hstep. split.
      * exact (@aligned_step _ _ _ H0 Hstep).
      * exact (@bounded_step _ _ _ H0 Hb0 Hr Hstep).
    + apply Forall_forall. intros r Hr. apply Hpos.
      unfold cohort_rows in Hr. now apply filter_In in Hr.
    + split; [apply aligned_init|]. intros u h Hh. discriminate.
    + exact Hloop.
Qed.

(** C7: after [parse_waffle_rows], every history of the history lookup is as
    long as the list of day-boundary times; the users with a history are the
    users of the cohort. *)
Theorem histories_aligned (MAX_RANK : Z) (rows : RowList) :
  exists times hist,
    parse_waffle_rows MAX_RANK rows = Some (times, hist)
    /\ (forall u h, In (u, h) hist -> List.length h = List.length times)
    /\ (forall u, In u (Dict.keys hist)
                  <-> In u (Dict.keys (get_top_users MAX_RANK rows))).
Proof.
  destruct (series_result MAX_RANK rows)
    as (st & Hparse & (Hnd & Hndh & Hlen & Hnone) & Hkeys & Htimes & _).
  exists (consumption_times st), (history_lookup st).
  split; [exact Hparse|]. split.
  - intros u h Hin. apply (@DictFacts.in_get _ _ _ _ Hndh) in Hin.
    now destruct (Hlen _ _ Hin).
  - intro u. rewrite <- Hkeys. split.
    + intro Hin. apply DictFacts.in_keys_get in Hin.
      destruct (Dict.get u (history_lookup st)) as [h|] eqn:Hh; [|congruence].
      now destruct (Hlen _ _ Hh).
    + intro Hin. apply DictFacts.in_keys_get. intro Hh.
      apply (Hnone u Hin) in Hh. revert Hh. apply Htimes.
      intro Hnil. rewrite Hkeys, Hnil in Hin. destruct Hin.
Qed.

(** C6: when no event has a negative quantity, every history built by
    [parse_waffle_rows] is non-decreasing. *)
Theorem histories_nondecreasing (MAX_RANK : Z) (rows : RowList) :
  (forall r, In r rows -> 0 <= waffles r) ->
  exists times hist,
    parse_waffle_rows MAX_RANK rows = Some (times, hist)
    /\ forall u h, In (u, h) hist -> nondecreasing h.
Proof.
  intro Hpos.
  destruct (series_result MAX_RANK rows)
    as (st & Hparse & (_ & Hndh & _) & _ & _ & Hb).
  exists (consumption_times st), (history_lookup st).
  split; [exact Hparse|].
  intros u h Hin. apply (@DictFacts.in_get _ _ _ _ Hndh) in Hin.
  now destruct (Hb Hpos _ _ Hin).
Qed.

Lemma histories_nondecreasing_witness :
  (forall r, In r constant_tail -> 0 <= waffles r) /\
  exists times hist,
    parse_waffle_rows 10 constant_tail = Some (times, hist)
    /\ forall u h, In (u, h) hist -> nondecreasing h.
Proof.
  assert (Hpos : forall r, In r constant_tail -> 0 <= waffles r).
  { intros r [<-|[<-|[<-|[]]]]; cbn; lia. }
  split; [exact Hpos|].
  apply (@histories_nondecreasing 10 constant_tail). exact Hpos.
Defined.

(** C9: on no rows at all [get_top_users] returns the empty dict and
    [parse_waffle_rows] returns an empty list of times and an empty history
    lookup; no exception is raised. *)
Theorem empty_input (MAX_RANK : Z) :
  get_top_users MAX_RANK [] = []
  /\ parse_waffle_rows MAX_RANK [] = Some ([], []).
Proof. split; reflexivity. Qed.

(** C2 (as the code has it): for two events of one actor, of 5 and then 3 on
    another day of the month, and [MAX_RANK = 10], the cohort is [{A: 8}],
    there are two day-boundary times, the history of [A] is [[5, 8]] and the
    indices of [A] are [first = 0] and [last = 1]. *)
Theorem two_events_outputs (A id1 id2 : string) (t1 t2 : datetime) :
  day t1 <> day t2 ->
  pipeline 10 [mkRow id1 5 t1 A; mkRow id2 3 t2 A] =
    Some (mkOutputs [(A, 8)] [t1; t2] [(A, [5; 8])] [(A, 0)] [(A, 1)]).
Proof.
  intro Hday.
  assert (Hneq : (day t2 =? day t1) = false) by (apply Z.eqb_neq; congruence).
  unfold pipeline, parse_waffle_rows, get_top_users, top_loop, top_step,
    cohort_rows, Dict.mem, series_step, add_existing, get_limiting_waffles.
  repeat (progress (cbn; change (Pos.to_nat 10) with 10%nat;
                    unfold Dict.get_default, series_step, add_existing,
                      limiting_waffles;
                    rewrite ?String.eqb_refl, ?Hneq)).
  reflexivity.
Qed.

Lemma two_events_outputs_witness :
  day (at_day 1 1) <> day (at_day 1 2) /\
  pipeline 10 two_events =
    Some (mkOutputs [("A"%string, 8)] [at_day 1 1; at_day 1 2]
            [("A"%string, [5; 8])] [("A"%string, 0)] [("A"%string, 1)]).
Proof.
  split; [discriminate|].
  apply (@two_events_outputs "A" "0" "0" (at_day 1 1) (at_day 1 2)). discriminate.
Defined.

(** C2 as stated fails: everything is as the claim says but the last
    index, which is 1 and not 2. *)
Lemma two_events_span_is_not_0_2 :
  day (at_day 1 1) <> day (at_day 1 2) /\
  exists o,
    pipeline 10 two_events = Some o
    /\ out_cohort o = [("A"%string, 8)]
    /\ len (out_times o) = 2
    /\ out_history o = [("A"%string, [5; 8])]
    /\ (Dict.get "A" (out_first o), Dict.get "A" (out_last o)) <> (Some 0, Some 2).
Proof.
  split; [discriminate|].
  eexists. split; [vm_compute; reflexivity|].
  cbn. repeat split; discriminate.
Qed.

(** * Further properties *)

(** ** The span trimmer on any history *)

Lemma scan_backwards_run (y x : Z) (k : nat) (rest : list Z) (i : Z) :
  x <> y ->
  scan_backwards (repeat y k ++ x :: rest) i y = i - Z.of_nat k - 1.
Proof.
  intro Hxy. revert i. induction k as [|k IH]; intro i.
  - cbn [repeat app scan_backwards].
    apply Z.eqb_neq in Hxy. rewrite Hxy. cbn. lia.
  - cbn [repeat app scan_backwards]. rewrite Z.eqb_refl. cbn [negb].
    rewrite IH. lia.
Qed.

Lemma constant_rev (h : History) : constant (rev h) -> constant h.
Proof.
  intro Hc. apply constant_repeat in Hc.
  apply (f_equal (@rev Z)) in Hc. rewrite rev_involutive, rev_repeat_eq in Hc.
  revert Hc. generalize (hd 0 (rev h)) (List.length (rev h)).
  intros v n -> x Hx. destruct n as [|n]; [destruct Hx|].
  now apply repeat_spec in Hx.
Qed.

(** A history that is not constant ends with a change followed by a run of
    its last value. *)
Lemma not_constant_split_end (h : History) :
  ~ constant h ->
  exists front x y m, x <> y /\ h = front ++ x :: repeat y (S m).
Proof.
  intro Hn.
  assert (Hrev : ~ constant (rev h)) by (intro Hc; now apply Hn, constant_rev).
  destruct (rev h) as [|y t] eqn:Hr.
  { exfalso. apply Hrev. intros x []. }
  destruct (not_constant_split Hrev) as (m & x & tail & Hxy & Heq).
  exists (rev tail), x, y, m. split; [exact Hxy|].
  rewrite <- (rev_involutive h), Hr, Heq, rev_app_distr. cbn [rev].
  rewrite rev_repeat_eq, <- app_assoc. reflexivity.
Qed.

Lemma limiting_waffles_end (front : list Z) (x y : Z) (m : nat) :
  x <> y ->
  exists f, limiting_waffles (front ++ x :: repeat y (S m))
            = Some (f, len front + 1).
Proof.
  intro Hxy. set (h := front ++ x :: repeat y (S m)).
  assert (Hne : h <> []) by (unfold h; destruct front; discriminate).
  rewrite (limiting_waffles_nonempty Hne).
  assert (Hrev : rev h = repeat y (S m) ++ x :: rev front).
  { unfold h. rewrite rev_app_distr. cbn [rev]. rewrite <- app_assoc.
    change (rev (repeat y (S m))) with (rev (repeat y (S m))).
    replace (rev (repeat y m) ++ [y]) with (rev (repeat y (S m))) by reflexivity.
    now rewrite rev_repeat_eq. }
  assert (Hlen : len h = len front + 1 + Z.of_nat (S m)).
  { unfold h. rewrite len_app, len_cons, len_repeat. lia. }
  rewrite Hrev. cbn [repeat app hd].
  change (y :: repeat y m ++ x :: rev front)
    with (repeat y (S m) ++ x :: rev front).
  rewrite scan_backwards_run by exact Hxy.
  eexists. f_equal. f_equal. lia.
Qed.

Lemma nth_error_repeat_some (v x : Z) (n i : nat) :
  nth_error (repeat v n) i = Some x -> x = v.
Proof.
  intro H. apply nth_error_In in H. now apply repeat_spec in H.
Qed.

(** The entries up to [first] all equal [history[0]], and when the history
    changes at all the entry after [first] is the first that differs. *)
Theorem leading_run_is_flat (history : History) (first last : Z) :
  limiting_waffles history = Some (first, last) ->
  (forall (i : nat) (x : Z),
     Z.of_nat i <= first -> nth_error history i = Some x -> x = hd 0 history)
  /\ (~ constant history ->
      exists x, nth_error history (S (Z.to_nat first)) = Some x
                /\ x <> hd 0 history).
Proof.
  intro Hlw. destruct history as [|v t]; [discriminate|].
  destruct (list_eq_dec Z.eq_dec (v :: t) (repeat v (S (List.length t))))
    as [Hrep|Hrep].
  - assert (Hc : constant (v :: t)) by (apply constant_repeat; exact Hrep).
    split; [|contradiction].
    intros i x _ Hx. apply Hc. eapply nth_error_In, Hx.
  - assert (Hc : ~ constant (v :: t)).
    { intro Hc. apply Hrep. now apply constant_repeat in Hc. }
    destruct (not_constant_split Hc) as (n & c & tail & Hcv & Heq).
    destruct (@limiting_waffles_change v c n tail Hcv) as (l & Hl & _).
    rewrite <- Heq, Hlw in Hl. injection Hl as -> ->.
    rewrite Heq. cbn [hd repeat app]. split.
    + intros i x Hi Hx.
      change (v :: repeat v n ++ c :: tail)
        with (repeat v (S n) ++ c :: tail) in Hx.
      rewrite nth_error_app1 in Hx by (rewrite repeat_length; lia).
      now apply nth_error_repeat_some in Hx.
    + intros _. exists c. split; [|exact Hcv].
      rewrite Nat2Z.id. cbn [nth_error].
      rewrite nth_error_app2 by (rewrite repeat_length; lia).
      rewrite repeat_length, Nat.sub_diag. reflexivity.
Qed.

Lemma leading_run_is_flat_witness :
  (forall (i : nat) (x : Z),
     Z.of_nat i <= 2 -> nth_error [1; 1; 1; 2; 3; 3] i = Some x ->
     x = hd 0 [1; 1; 1; 2; 3; 3])
  /\ (~ constant [1; 1; 1; 2; 3; 3] ->
      exists x, nth_error [1; 1; 1; 2; 3; 3] (S (Z.to_nat 2)) = Some x
                /\ x <> hd 0 [1; 1; 1; 2; 3; 3]).
Proof.
  apply (@leading_run_is_flat [1; 1; 1; 2; 3; 3] 2 4). reflexivity.
Defined.

(** When the history changes at all, [last] is the index right after the
    last change: the entries at [last - 1] and [last] differ and every entry
    from [last] on equals [history[-1]]. *)
Theorem trailing_run_is_flat (history : History) (first last : Z) :
  ~ constant history ->
  limiting_waffles history = Some (first, last) ->
  (exists x y, nth_error history (Z.to_nat (last - 1)) = Some x
               /\ nth_error history (Z.to_nat last) = Some y
               /\ x <> y)
  /\ (forall (j : nat) (z : Z),
        last <= Z.of_nat j -> nth_error history j = Some z ->
        z = List.last history 0).
Proof.
  intros Hc Hlw.
  destruct (not_constant_split_end Hc) as (front & x & y & m & Hxy & ->).
  destruct (@limiting_waffles_end front x y m Hxy) as (f & Hf).
  rewrite Hlw in Hf. injection Hf as _ ->.
  assert (Hlast : List.last (front ++ x :: repeat y (S m)) 0 = y).
  { change (x :: repeat y (S m)) with ([x] ++ repeat y (S m)).
    rewrite app_assoc. rewrite <- rev_repeat_eq. cbn [repeat rev].
    rewrite app_assoc. apply last_last. }
  unfold len. split.
  - exists x, y.
    replace (Z.to_nat (Z.of_nat (List.length front) + 1 - 1))
      with (List.length front) by lia.
    replace (Z.to_nat (Z.of_nat (List.length front) + 1))
      with (S (List.length front)) by lia.
    rewrite !nth_error_app2 by lia.
    rewrite Nat.sub_diag.
    replace (S (List.length front) - List.length front)%nat with 1%nat by lia.
    split; [reflexivity|]. split; [reflexivity|exact Hxy].
  - intros j z Hj Hz. rewrite Hlast.
    rewrite nth_error_app2 in Hz by lia.
    destruct (j - List.length front)%nat as [|k] eqn:Hk; [lia|].
    cbn [nth_error] in Hz. now apply nth_error_repeat_some in Hz.
Qed.

Lemma trailing_run_is_flat_witness :
  (exists x y, nth_error [1; 1; 1; 2; 3; 3] (Z.to_nat (4 - 1)) = Some x
               /\ nth_error [1; 1; 1; 2; 3; 3] (Z.to_nat 4) = Some y
               /\ x <> y)
  /\ (forall (j : nat) (z : Z),
        4 <= Z.of_nat j -> nth_error [1; 1; 1; 2; 3; 3] j = Some z ->
        z = List.last [1; 1; 1; 2; 3; 3] 0).
Proof.
  apply (@trailing_run_is_flat [1; 1; 1; 2; 3; 3] 2 4).
  - intro Hc. specialize (Hc 2). cbn in Hc. assert (2 = 1) by (apply Hc; auto).
    discriminate.
  - reflexivity.
Defined.

(** A history of at least two entries never has its final entry inside the
    half-open range from [first] to [last]. *)
Theorem last_excludes_final_entry (history : History) (first last : Z) :
  2 <= len history ->
  limiting_waffles history = Some (first, last) ->
  last <= len history - 1.
Proof.
  intros Hlen Hlw.
  destruct history as [|v t]; [discriminate|].
  destruct (list_eq_dec Z.eq_dec (v :: t) (repeat v (S (List.length t))))
    as [Hrep|Hrep].
  - rewrite Hrep in Hlw at 1. rewrite limiting_waffles_constant in Hlw.
    injection Hlw as _ <-. lia.
  - assert (Hc : ~ constant (v :: t)).
    { intro Hc. apply Hrep. now apply constant_repeat in Hc. }
    destruct (not_constant_split_end Hc) as (front & x & y & m & Hxy & Heq).
    destruct (@limiting_waffles_end front x y m Hxy) as (f & Hf).
    rewrite <- Heq, Hlw in Hf. injection Hf as _ ->.
    rewrite Heq, len_app, len_cons, len_repeat. lia.
Qed.

Lemma last_excludes_final_entry_witness :
  2 <= len [5; 8] /\ 1 <= len [5; 8] - 1.
Proof.
  split; [unfold len; cbn; lia|].
  apply (@last_excludes_final_entry [5; 8] 0 1); [unfold len; cbn; lia|reflexivity].
Defined.

(** ** get_limiting_waffles on a whole lookup *)

Lemma limiting_waffles_none (history : History) :
  limiting_waffles history = None <-> history = [].
Proof.
  split; [|now intros ->].
  destruct history as [|v t]; [reflexivity|].
  rewrite limiting_waffles_nonempty by discriminate. discriminate.
Qed.

Lemma limiting_loop_none (items : list (string * History)) (fw lw : IndexLookup) :
  limiting_loop items fw lw = None <-> exists u, In (u, []) items.
Proof.
  revert fw lw. induction items as [|[u h] items IH]; intros fw lw.
  - cbn. split; [discriminate|now intros [u []]].
  - cbn [limiting_loop].
    destruct (limiting_waffles h) as [[f l]|] eqn:Hlw.
    + rewrite IH. split.
      * intros [u' Hin]. exists u'. now right.
      * intros [u' [Heq|Hin]]; [|now exists u'].
        injection Heq as _ ->. discriminate.
    + apply limiting_waffles_none in Hlw. subst h. split; [|reflexivity].
      intros _. exists u. now left.
Qed.

(** [get_limiting_waffles] raises exactly when some user has an empty
    history. *)
Theorem get_limiting_waffles_raises (history_lookup : HistoryLookup) :
  get_limiting_waffles history_lookup = None
  <-> exists username, In (username, []) history_lookup.
Proof. apply limiting_loop_none. Qed.

Lemma limiting_loop_some (items : list (string * History))
    (fw0 lw0 fw lw : IndexLookup) :
  Dict.keys fw0 = Dict.keys lw0 ->
  NoDup (Dict.keys fw0 ++ Dict.keys items) ->
  limiting_loop items fw0 lw0 = Some (fw, lw) ->
  Dict.keys fw = Dict.keys fw0 ++ Dict.keys items
  /\ Dict.keys lw = Dict.keys fw0 ++ Dict.keys items
  /\ (forall u, ~ In u (Dict.keys items) ->
        Dict.get u fw = Dict.get u fw0 /\ Dict.get u lw = Dict.get u lw0)
  /\ (forall u h, In (u, h) items ->
        exists f l, limiting_waffles h = Some (f, l)
                    /\ Dict.get u fw = Some f /\ Dict.get u lw = Some l).
Proof.
  revert fw0 lw0. induction items as [|[u h] items IH]; intros fw0 lw0 Hk Hnd Hloop.
  - cbn in Hloop. injection Hloop as <- <-. cbn. rewrite app_nil_r.
    repeat split; auto. intros u h [].
  - cbn [limiting_loop] in Hloop.
    destruct (limiting_waffles h) as [[f l]|] eqn:Hlw; [|discriminate].
    cbn [Dict.keys map fst] in Hnd. fold (Dict.keys items) in Hnd.
    assert (Hu0 : ~ In u (Dict.keys fw0)).
    { intro Hin. apply NoDup_remove_2 in Hnd. apply Hnd, in_or_app. now left. }
    assert (Hu1 : ~ In u (Dict.keys items)).
    { intro Hin. apply NoDup_remove_2 in Hnd. apply Hnd, in_or_app. now right. }
    assert (Hkf : Dict.keys (Dict.set u f fw0) = Dict.keys fw0 ++ [u])
      by now apply DictFacts.keys_set_absent.
    assert (Hkl : Dict.keys (Dict.set u l lw0) = Dict.keys fw0 ++ [u]).
    { rewrite Hk. apply DictFacts.keys_set_absent. now rewrite <- Hk. }
    destruct (IH (Dict.set u f fw0) (Dict.set u l lw0)) as (Hfw & Hlw' & Hout & Hin).
    + now rewrite Hkf, Hkl.
    + rewrite Hkf, <- app_assoc. exact Hnd.
    + exact Hloop.
    + rewrite Hkf, <- app_assoc in Hfw, Hlw'.
      cbn [Dict.keys map fst]. fold (Dict.keys items).
      split; [exact Hfw|]. split; [exact Hlw'|]. split.
      * intros u' Hu'. destruct (Hout u') as [Hf Hl].
        { intro H. apply Hu'. now right. }
        rewrite Hf, Hl.
        assert (u' <> u) by (intros ->; apply Hu'; now left).
        now rewrite !DictFacts.get_set_other.
      * intros u' h' [Heq|Hi].
        -- injection Heq as <- <-. exists f, l. split; [exact Hlw|].
           destruct (Hout u Hu1) as [Hf Hl].
           now rewrite Hf, Hl, !DictFacts.get_set_same.
        -- now apply Hin.
Qed.

(** When it does not raise, [get_limiting_waffles] gives every user of the
    lookup, in the order of the lookup, the two indices of the user's own
    history. *)
Theorem get_limiting_waffles_entries (history_lookup : HistoryLookup)
    (first_waffle last_waffle : IndexLookup) :
  NoDup (Dict.keys history_lookup) ->
  get_limiting_waffles history_lookup = Some (first_waffle, last_waffle) ->
  Dict.keys first_waffle = Dict.keys history_lookup
  /\ Dict.keys last_waffle = Dict.keys history_lookup
  /\ (forall username history,
        In (username, history) history_lookup ->
        exists first last,
          limiting_waffles history = Some (first, last)
          /\ Dict.get username first_waffle = Some first
          /\ Dict.get username last_waffle = Some last).
Proof.
  intros Hnd Hget.
  destruct (@limiting_loop_some history_lookup [] [] first_waffle last_waffle)
    as (Hf & Hl & _ & Hin); auto.
Qed.

Lemma get_limiting_waffles_entries_witness :
  Dict.keys [("A"%string, 0); ("B"%string, 0)]
    = Dict.keys [("A"%string, [1; 2; 2; 2]); ("B"%string, [7])]
  /\ Dict.keys [("A"%string, 1); ("B"%string, 1)]
    = Dict.keys [("A"%string, [1; 2; 2; 2]); ("B"%string, [7])]
  /\ (forall username history,
        In (username, history) [("A"%string, [1; 2; 2; 2]); ("B"%string, [7])] ->
        exists first last,
          limiting_waffles history = Some (first, last)
          /\ Dict.get username [("A"%string, 0); ("B"%string, 0)] = Some first
          /\ Dict.get username [("A"%string, 1); ("B"%string, 1)] = Some last).
Proof.
  apply (@get_limiting_waffles_entries
           [("A"%string, [1; 2; 2; 2]); ("B"%string, [7])]).
  - repeat constructor; cbn; intuition discriminate.
  - reflexivity.
Defined.

(** ** More on the cohort selector *)

Lemma dict_keys_nil (V : Type) (d : Dict.t V) : Dict.keys d = [] -> d = [].
Proof. destruct d; [reflexivity|discriminate]. Qed.

Lemma slice_to_nothing (A : Type) (n : Z) (l : list A) :
  n = 0 \/ n <= - len l -> slice_to n l = [].
Proof.
  intros Hn. unfold slice_to, len in *.
  destruct (Z.leb_spec 0 n) as [Hle|Hlt].
  - assert (Hz : Z.to_nat n = 0%nat) by lia. now rewrite Hz.
  - assert (Hz : Z.to_nat (Z.of_nat (List.length l) + n) = 0%nat) by lia.
    now rewrite Hz.
Qed.

Lemma sorted_by_count_len (users : CountLookup) :
  len (sorted_by_count users) = len users.
Proof.
  rewrite <- len_keys. unfold len. f_equal.
  apply Permutation_length, sorted_by_count_perm.
Qed.

(** With [MAX_RANK = 0], or a negative [MAX_RANK] that takes away as many
    users as there are, every snapshot is empty: the cohort is empty and
    [parse_waffle_rows] returns no times and no histories. *)
Theorem no_rank_no_cohort (MAX_RANK : Z) (rows : RowList) :
  MAX_RANK = 0 \/ MAX_RANK <= - len (distinct_actors rows) ->
  get_top_users MAX_RANK rows = []
  /\ parse_waffle_rows MAX_RANK rows = Some ([], []).
Proof.
  intro Hm.
  assert (Hcohort : get_top_users MAX_RANK rows = []).
  { apply dict_keys_nil.
    destruct (Dict.keys (get_top_users MAX_RANK rows)) as [|a ks] eqn:Hk;
      [reflexivity|].
    assert (Hin : In a (Dict.keys (get_top_users MAX_RANK rows)))
      by (rewrite Hk; now left).
    apply cohort_keys_snapshots in Hin.
    destruct Hin as (before & r & [[after Hrows] _] & Hin).
    unfold top_ranked in Hin. rewrite slice_to_nothing in Hin; [destruct Hin|].
    destruct Hm as [Hm|Hm]; [now left|right].
    rewrite sorted_by_count_len.
    pose proof (@totals_size_actors rows (before ++ [r]) after) as Hsz.
    rewrite <- app_assoc in Hsz. specialize (Hsz Hrows). lia. }
  split; [exact Hcohort|].
  unfold parse_waffle_rows. rewrite Hcohort.
  assert (Hkept : cohort_rows [] rows = []).
  { unfold cohort_rows. clear Hm Hcohort.
    induction rows as [|r rows IH]; [reflexivity|exact IH]. }
  rewrite Hkept. reflexivity.
Qed.

Lemma no_rank_no_cohort_witness :
  (0 = 0 \/ 0 <= - len (distinct_actors overtaken))
  /\ get_top_users 0 overtaken = []
  /\ parse_waffle_rows 0 overtaken = Some ([], []).
Proof.
  split; [now left|]. apply (@no_rank_no_cohort 0 overtaken). now left.
Defined.

Lemma series_loop_times (rows : RowList) (st st' : series_state) :
  series_loop rows st = Some st' ->
  exists more, consumption_times st' = consumption_times st ++ more.
Proof.
  revert st. induction rows as [|r rows IH]; intros st Hloop.
  - cbn in Hloop. injection Hloop as <-. exists []. now rewrite app_nil_r.
  - cbn in Hloop. destruct (series_step st r) as [st1|] eqn:Hst; [|discriminate].
    destruct (IH _ Hloop) as [more Hmore].
    apply series_step_some in Hst.
    destruct Hst as (uc' & _ & _ & _ & [(_ & Ht & _)|(_ & Ht & _)]).
    + exists (time r :: more). rewrite Hmore, Ht, <- app_assoc. reflexivity.
    + exists more. now rewrite Hmore, Ht.
Qed.

(** With [1 <= MAX_RANK] the user of the first row is in the cohort, and the
    first of the times [parse_waffle_rows] returns is the time of that row. *)
Theorem first_row_opens_the_series (MAX_RANK : Z) (r : row) (rest : RowList) :
  1 <= MAX_RANK ->
  In (username r) (Dict.keys (get_top_users MAX_RANK (r :: rest)))
  /\ exists times hist,
       parse_waffle_rows MAX_RANK (r :: rest) = Some (times, hist)
       /\ hd_error times = Some (time r).
Proof.
  intro Hm.
  assert (Hin : In (username r) (Dict.keys (get_top_users MAX_RANK (r :: rest)))).
  { apply cohort_keys_snapshots. exists [], r. split.
    - split; [now exists rest|reflexivity].
    - unfold top_ranked. cbn [app]. rewrite slice_to_all.
      + apply (Permutation_in _ (Permutation_sym (sorted_by_count_perm _))).
        apply keys_totals. now left.
      + rewrite sorted_by_count_len. unfold len. cbn. lia. }
  split; [exact Hin|].
  destruct (parse_waffle_rows_total MAX_RANK (r :: rest)) as (st & Hloop & Hparse).
  exists (consumption_times st), (history_lookup st). split; [exact Hparse|].
  set (top := get_top_users MAX_RANK (r :: rest)) in *.
  assert (Hkept : cohort_rows top (r :: rest) = r :: cohort_rows top rest).
  { unfold cohort_rows. cbn [filter].
    apply DictFacts.mem_keys in Hin. now rewrite Hin. }
  rewrite Hkept in Hloop. cbn [series_loop] in Hloop.
  destruct (series_step (series_init top) r) as [st1|] eqn:Hst; [|discriminate].
  apply series_loop_times in Hloop. destruct Hloop as [more Hmore].
  apply series_step_some in Hst.
  destruct Hst as (uc' & _ & _ & _ & [(_ & Ht & _)|(Hday & _)]).
  - rewrite Hmore, Ht. reflexivity.
  - discriminate.
Qed.

Lemma first_row_opens_the_series_witness :
  1 <= 1 /\
  In (username (ev "A" 5 (at_day 1 1)))
     (Dict.keys (get_top_users 1 (ev "A" 5 (at_day 1 1) :: [ev "B" 10 (at_day 1 2)])))
  /\ exists times hist,
       parse_waffle_rows 1 (ev "A" 5 (at_day 1 1) :: [ev "B" 10 (at_day 1 2)])
         = Some (times, hist)
       /\ hd_error times = Some (time (ev "A" 5 (at_day 1 1))).
Proof.
  split; [lia|].
  apply (@first_row_opens_the_series 1 (ev "A" 5 (at_day 1 1))
           [ev "B" 10 (at_day 1 2)]). lia.
Defined.

(** For [0 <= MAX_RANK] the snapshot taken after [events] holds [MAX_RANK]
    users, or all of them when there are fewer, and no user it leaves out
    has a larger running total than a user it takes. *)
Theorem snapshot_takes_the_largest (MAX_RANK : Z) (events : RowList) :
  0 <= MAX_RANK ->
  map fst (top_snapshot MAX_RANK (totals events)) = top_ranked MAX_RANK events
  /\ len (top_ranked MAX_RANK events)
     = Z.min MAX_RANK (len (distinct_actors events))
  /\ forall a b,
       In a (top_ranked MAX_RANK events) ->
       In b (map username events) ->
       ~ In b (top_ranked MAX_RANK events) ->
       running_total b events <= running_total a events.
Proof.
  intro Hm. split; [apply keys_top_snapshot|]. split.
  - rewrite top_ranked_length by exact Hm. f_equal.
    rewrite <- len_keys. unfold len. f_equal.
    apply Nat.le_antisymm; apply NoDup_incl_length.
    + apply nodup_keys_totals.
    + intros a Ha. apply nodup_In. now apply keys_totals.
    + apply NoDup_nodup.
    + intros a Ha. apply nodup_In in Ha. now apply keys_totals.
  - intros a b. now apply top_ranked_outranks.
Qed.

Lemma snapshot_takes_the_largest_witness :
  0 <= 1 /\
  map fst (top_snapshot 1 (totals overtaken)) = top_ranked 1 overtaken
  /\ len (top_ranked 1 overtaken) = Z.min 1 (len (distinct_actors overtaken))
  /\ forall a b,
       In a (top_ranked 1 overtaken) ->
       In b (map username overtaken) ->
       ~ In b (top_ranked 1 overtaken) ->
       running_total b overtaken <= running_total a overtaken.
Proof.
  split; [lia|]. apply (@snapshot_takes_the_largest 1 overtaken). lia.
Defined.

(** *** Ties *)

Lemma filter_insert_by_count (c : Z) (kv : string * Z) (l : list (string * Z)) :
  filter (fun x => snd x =? c) (insert_by_count kv l)
  = filter (fun x => snd x =? c) (kv :: l).
Proof.
  induction l as [|kv' l IH]; [reflexivity|].
  cbn [insert_by_count].
  destruct (Z.ltb_spec (snd kv) (snd kv')) as [Hlt|Hge]; [|reflexivity].
  cbn [filter] in *. rewrite IH.
  destruct (Z.eqb_spec (snd kv) c) as [Hk|Hk];
    destruct (Z.eqb_spec (snd kv') c) as [Hk'|Hk']; try reflexivity.
  lia.
Qed.

Lemma filter_sorted_items (c : Z) (users : CountLookup) :
  filter (fun x => snd x =? c) (fold_right insert_by_count [] users)
  = filter (fun x => snd x =? c) users.
Proof.
  induction users as [|kv users IH]; [reflexivity|].
  cbn [fold_right]. rewrite filter_insert_by_count. cbn [filter].
  now rewrite IH.
Qed.

Lemma filter_keys_by_count (users l : CountLookup) (c : Z) :
  (forall k v, In (k, v) l -> Dict.get_default 0 k users = v) ->
  filter (fun k => Dict.get_default 0 k users =? c) (map fst l)
  = map fst (filter (fun x => snd x =? c) l).
Proof.
  induction l as [|[k v] l IH]; intro Hval; [reflexivity|].
  cbn [map filter fst snd]. rewrite (Hval k v) by now left.
  rewrite IH by (intros k' v' Hin; apply Hval; now right).
  now destruct (v =? c).
Qed.

(** [sorted(..., reverse=True)] is stable: the users with one and the same
    count come out in the order in which the dict holds them. *)
Theorem sorted_by_count_keeps_ties_in_order (users : CountLookup) (c : Z) :
  NoDup (Dict.keys users) ->
  filter (fun k => Dict.get_default 0 k users =? c) (sorted_by_count users)
  = filter (fun k => Dict.get_default 0 k users =? c) (Dict.keys users).
Proof.
  intro Hnd.
  assert (Hval : forall k v, In (k, v) users -> Dict.get_default 0 k users = v).
  { intros k v Hin. unfold Dict.get_default.
    now rewrite (@DictFacts.in_get _ _ _ _ Hnd Hin). }
  unfold sorted_by_count, Dict.keys.
  rewrite !filter_keys_by_count, filter_sorted_items; [reflexivity|exact Hval|].
  intros k v Hin. apply Hval.
  now apply (Permutation_in _ (sorted_items_perm users)).
Qed.

Lemma sorted_by_count_keeps_ties_in_order_witness :
  filter (fun k => Dict.get_default 0 k
                     [("a", 1); ("b", 3); ("c", 1); ("d", 3)]%string =? 1)
         (sorted_by_count [("a", 1); ("b", 3); ("c", 1); ("d", 3)]%string)
  = filter (fun k => Dict.get_default 0 k
                       [("a", 1); ("b", 3); ("c", 1); ("d", 3)]%string =? 1)
           (Dict.keys [("a", 1); ("b", 3); ("c", 1); ("d", 3)]%string).
Proof.
  apply (@sorted_by_count_keeps_ties_in_order
           [("a", 1); ("b", 3); ("c", 1); ("d", 3)]%string 1).
  repeat constructor; cbn; intuition discriminate.
Defined.

(** *** Stored values and final totals *)

Lemma running_total_app (a : string) (l1 l2 : RowList) :
  running_total a (l1 ++ l2) = running_total a l1 + running_total a l2.
Proof.
  induction l1 as [|r l1 IH]; cbn [app running_total]; [lia|].
  rewrite IH. lia.
Qed.

Lemma running_total_nonneg (a : string) (rows : RowList) :
  (forall r, In r rows -> 0 <= waffles r) -> 0 <= running_total a rows.
Proof.
  induction rows as [|r rows IH]; intro Hpos; cbn [running_total]; [lia|].
  assert (0 <= waffles r) by (apply Hpos; now left).
  assert (0 <= running_total a rows) by (apply IH; intros; apply Hpos; now right).
  destruct (String.eqb (username r) a); lia.
Qed.

(** When no quantity is negative, the value stored for a user of the cohort
    lies between 0 and the total of the user over all rows. *)
Theorem cohort_value_at_most_total (MAX_RANK : Z) (rows : RowList)
    (a : string) (v : Z) :
  (forall r, In r rows -> 0 <= waffles r) ->
  Dict.get a (get_top_users MAX_RANK rows) = Some v ->
  0 <= v <= running_total a rows.
Proof.
  intros Hpos Hget. apply cohort_value_latest in Hget.
  destruct Hget as (pre & r & [[post Hrows] _] & _ & -> & _).
  assert (Hsplit : rows = (pre ++ [r]) ++ post)
    by (rewrite <- app_assoc; exact Hrows).
  rewrite Hsplit at 1. rewrite (running_total_app a (pre ++ [r]) post).
  assert (0 <= running_total a (pre ++ [r])).
  { apply running_total_nonneg. intros r0 Hr0. apply Hpos.
    rewrite Hsplit. apply in_or_app. now left. }
  assert (0 <= running_total a post).
  { apply running_total_nonneg. intros r0 Hr0. apply Hpos.
    rewrite Hsplit. apply in_or_app. now right. }
  lia.
Qed.

Lemma cohort_value_at_most_total_witness :
  (forall r, In r evicted -> 0 <= waffles r)
  /\ 0 <= 5 <= running_total "A" evicted.
Proof.
  assert (Hpos : forall r, In r evicted -> 0 <= waffles r).
  { intros r [<-|[<-|[<-|[<-|[]]]]]; cbn; lia. }
  split; [exact Hpos|].
  apply (@cohort_value_at_most_total 1 evicted "A" 5 Hpos). reflexivity.
Defined.

(** ** What the series builder computes *)

Lemma snapshot_step_seen (rows : RowList) (st : RowList * list (RowList * row)) :
  fst (fold_left snapshot_step rows st) = fst st ++ rows.
Proof.
  revert st. induction rows as [|r rows IH]; intro st; cbn [fold_left].
  - now rewrite app_nil_r.
  - rewrite IH. cbn [snapshot_step fst]. now rewrite <- app_assoc.
Qed.

Lemma snapshots_snoc (rows : RowList) (r : row) :
  snapshots (rows ++ [r]) =
    if is_new_day (day (time r)) (last_day rows)
    then snapshots rows ++ [(rows, r)] else snapshots rows.
Proof.
  unfold snapshots. rewrite fold_left_app. cbn [fold_left snapshot_step snd].
  now rewrite snapshot_step_seen.
Qed.

(** [snapshots] lists the day boundaries. *)
Lemma in_snapshots (rows before : RowList) (r : row) :
  In (before, r) (snapshots rows) <-> snapshot_at rows before r.
Proof.
  induction rows as [|r0 rows IH] using rev_ind.
  - cbn. split; [intros []|apply snapshot_at_nil].
  - rewrite snapshots_snoc, snapshot_at_snoc, <- IH. unfold crosses_day.
    destruct (is_new_day (day (time r0)) (last_day rows)).
    + rewrite in_app_iff. cbn [In]. split.
      * intros [H|[[= <- <-]|[]]]; auto.
      * intros [(-> & -> & _)|H]; auto.
    + split; [now right|]. intros [(_ & _ & H)|H]; [discriminate|exact H].
Qed.

Lemma series_after_step (done : RowList) (st st' : series_state) (r : row) :
  aligned st -> series_after done st -> series_step st r = Some st' ->
  series_after (done ++ [r]) st'.
Proof.
  intros (Hnd & _ & Hlen & Hnone) (Hprev & Htimes & Hcounts & Hhist) Hst.
  apply series_step_some in Hst.
  destruct Hst as (uc' & Hadd & Huc & Hprev' & Hcase).
  pose proof (add_existing_keys _ _ _ Hadd) as Hkeys.
  assert (Hcounts' : forall u, In u (Dict.keys uc') ->
            Dict.get_default 0 u uc' = running_total u (done ++ [r])).
  { intros u Hu. rewrite Hkeys in Hu. rewrite running_total_snoc, <- (Hcounts u Hu).
    apply add_existing_some in Hadd. destruct Hadd as (v & Hget & ->).
    unfold Dict.get_default. rewrite DictFacts.get_set.
    rewrite (String.eqb_sym (username r) u).
    destruct (String.eqb_spec u (username r)) as [->|Hne]; [rewrite Hget|]; lia. }
  unfold series_after. rewrite Huc, Hprev', last_day_snoc, snapshots_snoc.
  split; [reflexivity|]. rewrite <- Hprev.
  destruct Hcase as [(Hday & -> & ->)|(Hday & -> & ->)]; rewrite Hday.
  - split; [|split; [exact Hcounts'|]].
    + rewrite map_app, Htimes. reflexivity.
    + assert (Hnd' : NoDup (Dict.keys uc')) by now rewrite Hkeys.
      intros u h. rewrite (@get_append_counts uc' _ u Hnd').
      destruct (Dict.get u uc') as [c|] eqn:Hc.
      * intros [= <-]. rewrite map_app. cbn [map]. f_equal.
        -- unfold Dict.get_default.
           match goal with
           | |- context [match ?g with Some _ => _ | None => _ end] =>
               destruct g as [h0|] eqn:Hh
           end.
           ++ now apply Hhist.
           ++ assert (Hu : In u (Dict.keys (user_counts st))).
              { rewrite <- Hkeys. apply DictFacts.in_keys_get. congruence. }
              specialize (Hnone u Hu Hh). rewrite Hnone in Htimes.
              symmetry in Htimes. apply map_eq_nil in Htimes.
              now rewrite Htimes.
        -- f_equal. unfold total_at. cbn [fst snd].
           rewrite <- Hcounts'.
           ++ unfold Dict.get_default. now rewrite Hc.
           ++ apply DictFacts.in_keys_get. congruence.
      * intro Hh. destruct (Hlen _ _ Hh) as [_ Hin].
        rewrite <- Hkeys in Hin. apply DictFacts.in_keys_get in Hin. congruence.
  - split; [exact Htimes|]. split; [exact Hcounts'|exact Hhist].
Qed.

Lemma series_after_loop (rows done : RowList) (st st' : series_state) :
  aligned st -> series_after done st -> series_loop rows st = Some st' ->
  series_after (done ++ rows) st'.
Proof.
  revert done st. induction rows as [|r rows IH]; intros done st Hal Haf Hloop.
  - cbn in Hloop. injection Hloop as <-. now rewrite app_nil_r.
  - cbn in Hloop. destruct (series_step st r) as [st1|] eqn:Hst; [|discriminate].
    change (r :: rows) with ([r] ++ rows). rewrite app_assoc.
    apply (IH _ st1).
    + exact (@aligned_step _ _ _ Hal Hst).
    + exact (@series_after_step _ _ _ _ Hal Haf Hst).
    + exact Hloop.
Qed.

Lemma series_after_init (top : CountLookup) : series_after [] (series_init top).
Proof.
  unfold series_after, series_init. cbn [series_prev_day consumption_times
    user_counts history_lookup]. split; [reflexivity|]. split; [reflexivity|].
  split; [|discriminate].
  intros u Hu. unfold Dict.get_default, zero_counts.
  destruct (Dict.get u (map (fun kv => (fst kv, 0)) top)) as [v|] eqn:Hget;
    [|reflexivity].
  apply DictFacts.get_in, in_map_iff in Hget.
  destruct Hget as (kv & [= _ <-] & _). reflexivity.
Qed.

(** [parse_waffle_rows] returns, for the rows of the cohort users, the time
    of every day-boundary row and, for every user, the user's total over
    these rows up to and including each day-boundary row. *)
Theorem histories_are_totals_at_boundaries (MAX_RANK : Z) (rows : RowList) :
  exists times hist,
    parse_waffle_rows MAX_RANK rows = Some (times, hist)
    /\ times = map (fun b => time (snd b))
                  (snapshots (cohort_rows (get_top_users MAX_RANK rows) rows))
    /\ (forall u h,
          In (u, h) hist ->
          h = map (total_at u)
                  (snapshots (cohort_rows (get_top_users MAX_RANK rows) rows)))
    /\ (forall before r,
          In (before, r)
             (snapshots (cohort_rows (get_top_users MAX_RANK rows) rows))
          <-> snapshot_at (cohort_rows (get_top_users MAX_RANK rows) rows)
                          before r).
Proof.
  destruct (parse_waffle_rows_total MAX_RANK rows) as (st & Hloop & Hparse).
  destruct (series_result MAX_RANK rows) as (st0 & Hparse0 & Hal & _).
  assert (Hsame : consumption_times st0 = consumption_times st
                  /\ history_lookup st0 = history_lookup st).
  { rewrite Hparse in Hparse0. now injection Hparse0 as <- <-. }
  destruct Hsame as [Ht Hh]. destruct Hal as (_ & Hndh & _). rewrite Hh in Hndh.
  pose proof (@series_after_loop _ [] _ _
                (aligned_init MAX_RANK rows)
                (series_after_init (get_top_users MAX_RANK rows)) Hloop)
    as (_ & Htimes & _ & Hhist).
  cbn [app] in Htimes, Hhist.
  exists (consumption_times st), (history_lookup st).
  split; [exact Hparse|]. split; [exact Htimes|]. split.
  - intros u h Hin. apply Hhist. now apply (@DictFacts.in_get _ _ _ _ Hndh).
  - intros. apply in_snapshots.
Qed.

(** *** Neighbouring times *)

Lemma last_day_none (rows : RowList) : last_day rows = None -> rows = [].
Proof.
  destruct rows as [|r rows] using rev_ind; [reflexivity|].
  rewrite last_day_snoc. discriminate.
Qed.

(** The day of the last boundary is the day of the last row, and two
    boundaries in a row are on different days of the month. *)
Lemma snapshots_days (rows : RowList) :
  (forall b, List.last (map Some (snapshots rows)) None = Some b ->
     last_day rows = Some (day (time (snd b))))
  /\ (snapshots rows = [] -> rows = [])
  /\ forall (i : nat) b1 b2,
       nth_error (snapshots rows) i = Some b1 ->
       nth_error (snapshots rows) (S i) = Some b2 ->
       day (time (snd b1)) <> day (time (snd b2)).
Proof.
  induction rows as [|r rows (IHlast & IHnil & IHadj)] using rev_ind.
  - cbn. split; [discriminate|]. split; [reflexivity|].
    intros i b1 b2 H. destruct i; discriminate.
  - rewrite snapshots_snoc, last_day_snoc.
    destruct (is_new_day (day (time r)) (last_day rows)) eqn:Hday.
    + split; [|split].
      * intros b. rewrite map_app. cbn [map]. rewrite last_last.
        now intros [= <-].
      * intro H. destruct (snapshots rows); discriminate.
      * intros i b1 b2 H1 H2.
        destruct (Nat.lt_ge_cases (S i) (List.length (snapshots rows))) as [Hlt|Hge].
        -- rewrite nth_error_app1 in H1 by lia.
           rewrite nth_error_app1 in H2 by lia. now apply (IHadj i).
        -- assert (Hsi : (S i < List.length (snapshots rows ++ [(rows, r)]))%nat).
           { apply nth_error_Some. unfold RowList in *. congruence. }
           rewrite length_app in Hsi. cbn in Hsi.
           rewrite nth_error_app1 in H1 by lia.
           rewrite nth_error_app2 in H2 by lia.
           replace (S i - List.length (snapshots rows))%nat with 0%nat in H2 by lia.
           injection H2 as <-. cbn [snd].
           assert (Hb1 : List.last (map Some (snapshots rows)) None = Some b1).
           { apply nth_error_split in H1.
             destruct H1 as (l1 & l2 & Heq & Hl1). rewrite Heq in *.
             rewrite length_app in Hsi, Hge. cbn in Hsi, Hge.
             destruct l2 as [|x l2]; [|cbn in Hge; lia].
             rewrite map_app. cbn [map]. apply last_last. }
           specialize (IHlast _ Hb1). rewrite IHlast in Hday.
           cbn in Hday. intro Heq. rewrite Heq, Z.eqb_refl in Hday. discriminate.
    + assert (Hsome : last_day rows = Some (day (time r))).
      { destruct (last_day rows) as [p|]; [|discriminate].
        cbn in Hday. destruct (Z.eqb_spec (day (time r)) p); [congruence|discriminate]. }
      split; [|split].
      * intros b Hb. specialize (IHlast _ Hb). congruence.
      * intro H. apply IHnil in H. subst rows. discriminate.
      * exact IHadj.
Qed.

(** Two times that follow each other in the list [parse_waffle_rows] returns
    are on different days of the month. *)
Theorem neighbouring_times_differ_in_day (MAX_RANK : Z) (rows : RowList) :
  exists times hist,
    parse_waffle_rows MAX_RANK rows = Some (times, hist)
    /\ forall (i : nat) t1 t2,
         nth_error times i = Some t1 -> nth_error times (S i) = Some t2 ->
         day t1 <> day t2.
Proof.
  destruct (parse_waffle_rows_total MAX_RANK rows) as (st & Hloop & Hparse).
  pose proof (@series_after_loop _ [] _ _
                (aligned_init MAX_RANK rows)
                (series_after_init (get_top_users MAX_RANK rows)) Hloop)
    as (_ & Htimes & _).
  cbn [app] in Htimes.
  exists (consumption_times st), (history_lookup st). split; [exact Hparse|].
  intros i t1 t2 H1 H2. rewrite Htimes in H1, H2.
  rewrite nth_error_map in H1, H2.
  destruct (nth_error _ i) as [b1|] eqn:Hb1; [|discriminate].
  destruct (nth_error _ (S i)) as [b2|] eqn:Hb2; [|discriminate].
  injection H1 as <-. injection H2 as <-.
  destruct (snapshots_days (cohort_rows (get_top_users MAX_RANK rows) rows))
    as (_ & _ & Hadj).
  exact (Hadj i b1 b2 Hb1 Hb2).
Qed.

(** *** The rows that are kept *)

(** The total of a user over the rows that are kept. *)
Lemma kept_rows_totals (top_users : CountLookup) (rows : RowList) (u : string) :
  running_total u (cohort_rows top_users rows)
  = if Dict.mem u top_users then running_total u rows else 0.
Proof.
  unfold cohort_rows. induction rows as [|r rows IH].
  - cbn. now destruct (Dict.mem u top_users).
  - cbn [filter running_total].
    destruct (Dict.mem (username r) top_users) eqn:Hmem.
    + cbn [running_total]. rewrite IH.
      destruct (String.eqb_spec (username r) u) as [Heq|Hne].
      * rewrite <- Heq, Hmem. reflexivity.
      * destruct (Dict.mem u top_users); lia.
    + rewrite IH.
      destruct (String.eqb_spec (username r) u) as [Heq|Hne].
      * rewrite <- Heq, Hmem. reflexivity.
      * destruct (Dict.mem u top_users); lia.
Qed.

(** ** The functions together *)

(** Whatever the rows and [MAX_RANK], the histories [parse_waffle_rows]
    returns are not empty, so [get_limiting_waffles] does not raise on them,
    and it gives two indices to every user of the cohort. *)
Theorem pipeline_never_raises (MAX_RANK : Z) (rows : RowList) :
  exists o,
    pipeline MAX_RANK rows = Some o
    /\ (forall u h, In (u, h) (out_history o) -> h <> [])
    /\ Dict.keys (out_first o) = Dict.keys (out_history o)
    /\ Dict.keys (out_last o) = Dict.keys (out_history o)
    /\ (forall u, In u (Dict.keys (out_first o))
                  <-> In u (Dict.keys (get_top_users MAX_RANK rows))).
Proof.
  destruct (series_result MAX_RANK rows)
    as (st & Hparse & (Hnd & Hndh & Hlen & Hnone) & Hkeys & Htimes & _).
  assert (Hfull : forall u h, In (u, h) (history_lookup st) -> h <> []).
  { intros u h Hin ->. apply (@DictFacts.in_get _ _ _ _ Hndh) in Hin.
    destruct (Hlen _ _ Hin) as [Hl Hu]. rewrite Hkeys in Hu.
    apply Htimes.
    - intro Hnil. rewrite Hnil in Hu. destruct Hu.
    - destruct (consumption_times st); [reflexivity|discriminate]. }
  destruct (get_limiting_waffles (history_lookup st)) as [[fw lw]|] eqn:Hlim.
  - exists (mkOutputs (get_top_users MAX_RANK rows) (consumption_times st)
              (history_lookup st) fw lw).
    unfold pipeline. rewrite Hparse, Hlim. cbn [out_history out_first out_last].
    destruct (@limiting_loop_some (history_lookup st) [] [] fw lw)
      as (Hf & Hl & _); auto.
    cbn [app Dict.keys map] in Hf, Hl.
    split; [reflexivity|]. split; [exact Hfull|].
    split; [exact Hf|]. split; [exact Hl|].
    intro u. rewrite Hf, <- Hkeys. split.
    + intro Hin. apply DictFacts.in_keys_get in Hin.
      destruct (Dict.get u (history_lookup st)) as [h|] eqn:Hh; [|congruence].
      now destruct (Hlen _ _ Hh).
    + intro Hin. apply DictFacts.in_keys_get. intro Hh.
      apply (Hnone u Hin) in Hh. revert Hh. apply Htimes.
      intro Hnil. rewrite Hkeys, Hnil in Hin. destruct Hin.
  - exfalso. apply limiting_loop_none in Hlim. destruct Hlim as [u Hin].
    now apply (Hfull u []).
Qed.

(** ** The linestyles *)

Lemma map_seq_const (f : Z -> string) (c : string) (a k : nat) :
  (forall i, (a <= i < a + k)%nat -> f (Z.of_nat i) = c) ->
  map f (map Z.of_nat (seq a k)) = repeat c k.
Proof.
  revert a. induction k as [|k IH]; intros a Hf; [reflexivity|].
  cbn [seq map repeat]. rewrite Hf by lia. f_equal.
  apply IH. intros i Hi. apply Hf. lia.
Qed.

Ltac linestyle_cases :=
  unfold linestyle, LINESTYLE_PRIMARY_THRESHOLD, LINESTYLE_SECONDARY_THRESHOLD;
  repeat match goal with
         | |- context [?x <? ?y] => destruct (Z.ltb_spec x y)
         end;
  cbn [andb]; try reflexivity; exfalso; Z.div_mod_to_equations; lia.

(** Up to 25 users every line is solid. *)
Theorem linestyles_few_users (num_users : Z) :
  num_users <= 25 ->
  get_linestyle_cycle num_users
  = repeat LINESTYLE_FOURTH_QUARTER (Z.to_nat num_users).
Proof.
  intro Hn. unfold get_linestyle_cycle, range.
  apply map_seq_const. intros i Hi. linestyle_cases.
Qed.

Lemma linestyles_few_users_witness :
  3 <= 25 /\ get_linestyle_cycle 3 = repeat LINESTYLE_FOURTH_QUARTER (Z.to_nat 3).
Proof. split; [lia|]. apply (@linestyles_few_users 3). lia. Defined.

(** From 26 to 50 users the first half of the lines is dash-dotted and the
    rest is solid. *)
Theorem linestyles_two_halves (num_users : Z) :
  25 < num_users <= 50 ->
  get_linestyle_cycle num_users
  = repeat LINESTYLE_SECOND_QUARTER (Z.to_nat (num_users / 2))
    ++ repeat LINESTYLE_FOURTH_QUARTER (Z.to_nat (num_users - num_users / 2)).
Proof.
  intro Hn. unfold get_linestyle_cycle, range.
  replace (Z.to_nat num_users)
    with (Z.to_nat (num_users / 2) + Z.to_nat (num_users - num_users / 2))%nat
    by (Z.div_mod_to_equations; lia).
  rewrite seq_app, !map_app. cbn [Nat.add]. f_equal.
  - apply map_seq_const. intros i Hi. linestyle_cases.
  - apply map_seq_const. intros i Hi. linestyle_cases.
Qed.

Lemma linestyles_two_halves_witness :
  25 < 30 <= 50 /\
  get_linestyle_cycle 30
  = repeat LINESTYLE_SECOND_QUARTER (Z.to_nat (30 / 2))
    ++ repeat LINESTYLE_FOURTH_QUARTER (Z.to_nat (30 - 30 / 2)).
Proof. split; [lia|]. apply (@linestyles_two_halves 30). lia. Defined.

(** Above 50 users the lines come in four quarters: dotted, dash-dotted,
    dashed and solid. *)
Theorem linestyles_four_quarters (num_users : Z) :
  50 < num_users ->
  get_linestyle_cycle num_users
  = repeat LINESTYLE_FIRST_QUARTER (Z.to_nat (num_users / 4))
    ++ repeat LINESTYLE_SECOND_QUARTER (Z.to_nat (num_users / 2 - num_users / 4))
    ++ repeat LINESTYLE_THIRD_QUARTER
         (Z.to_nat (3 * num_users / 4 - num_users / 2))
    ++ repeat LINESTYLE_FOURTH_QUARTER
         (Z.to_nat (num_users - 3 * num_users / 4)).
Proof.
  intro Hn. unfold get_linestyle_cycle, range.
  replace (Z.to_nat num_users)
    with (Z.to_nat (num_users / 4)
          + (Z.to_nat (num_users / 2 - num_users / 4)
             + (Z.to_nat (3 * num_users / 4 - num_users / 2)
                + Z.to_nat (num_users - 3 * num_users / 4))))%nat
    by (Z.div_mod_to_equations; lia).
  rewrite !seq_app, !map_app. cbn [Nat.add].
  repeat f_equal.
  - apply map_seq_const. intros i Hi. linestyle_cases.
  - apply map_seq_const. intros i Hi. linestyle_cases.
  - apply map_seq_const. intros i Hi. linestyle_cases.
  - apply map_seq_const. intros i Hi. linestyle_cases.
Qed.

Lemma linestyles_four_quarters_witness :
  50 < 60 /\
  get_linestyle_cycle 60
  = repeat LINESTYLE_FIRST_QUARTER (Z.to_nat (60 / 4))
    ++ repeat LINESTYLE_SECOND_QUARTER (Z.to_nat (60 / 2 - 60 / 4))
    ++ repeat LINESTYLE_THIRD_QUARTER (Z.to_nat (3 * 60 / 4 - 60 / 2))
    ++ repeat LINESTYLE_FOURTH_QUARTER (Z.to_nat (60 - 3 * 60 / 4)).
Proof. split; [lia|]. apply (@linestyles_four_quarters 60). lia. Defined.

(** ** The values handed to the plot *)

Lemma slice_index_range (i n : Z) : 0 <= n -> 0 <= slice_index i n <= n.
Proof. intro Hn. unfold slice_index. destruct (Z.ltb_spec i 0); lia. Qed.

Lemma py_slice_length (A : Type) (s e : Z) (l : list A) :
  len (py_slice s e l)
  = Z.max 0 (slice_index e (len l) - slice_index s (len l)).
Proof.
  unfold py_slice.
  pose proof (slice_index_range s (len_nonneg l)) as Hs.
  pose proof (slice_index_range e (len_nonneg l)) as He.
  unfold len in *. rewrite length_firstn, length_skipn. lia.
Qed.

Lemma py_slice_incl (A : Type) (s e : Z) (l : list A) (x : A) :
  In x (py_slice s e l) -> In x l.
Proof.
  unfold py_slice. intro H.
  rewrite <- (firstn_skipn (Z.to_nat (slice_index s (len l))) l).
  apply in_or_app. right.
  rewrite <- (firstn_skipn
                (Z.to_nat (slice_index e (len l) - slice_index s (len l)))
                (skipn _ l)).
  apply in_or_app. now left.
Qed.

Lemma py_index_valid (A : Type) (i : Z) (l : list A) :
  0 <= i < len l -> exists x, py_index i l = Some x /\ In x l.
Proof.
  intro Hi. unfold py_index.
  destruct (Z.ltb_spec i 0); [lia|].
  destruct (Z.leb_spec 0 i); [|lia]. destruct (Z.ltb_spec i (len l)); [|lia].
  cbn [andb].
  destruct (nth_error l (Z.to_nat i)) as [x|] eqn:Hx.
  - exists x. split; [reflexivity|]. eapply nth_error_In, Hx.
  - apply nth_error_None in Hx. unfold len in *. lia.
Qed.

Lemma py_index_last (A : Type) (l : list A) (d : A) :
  l <> [] -> py_index LAST l = Some (List.last l d).
Proof.
  intro Hne. destruct (exists_last Hne) as (l' & x & ->).
  rewrite last_last. unfold py_index, LAST.
  rewrite len_app. unfold len. cbn [List.length].
  destruct (Z.ltb_spec (-1) 0); [|lia].
  destruct (Z.leb_spec 0 (-1 + (Z.of_nat (List.length l') + Z.of_nat 1))); [|lia].
  destruct (Z.ltb_spec (-1 + (Z.of_nat (List.length l') + Z.of_nat 1))
                       (Z.of_nat (List.length l') + Z.of_nat 1)); [|lia].
  cbn [andb].
  replace (Z.to_nat (-1 + (Z.of_nat (List.length l') + Z.of_nat 1)))
    with (List.length l') by lia.
  rewrite nth_error_app2 by lia. now rewrite Nat.sub_diag.
Qed.

Lemma py_index_empty (A : Type) (i : Z) : @py_index A i [] = None.
Proof.
  unfold py_index, len. cbn [List.length].
  destruct (i <? 0); destruct (Z.leb_spec 0 (i + Z.of_nat 0));
    destruct (Z.ltb_spec (i + Z.of_nat 0) (Z.of_nat 0));
    destruct (Z.leb_spec 0 i); destruct (Z.ltb_spec i (Z.of_nat 0));
    cbn [andb]; try reflexivity; lia.
Qed.

(** The last index is at least 1 and at most the length. *)
Lemma limiting_waffles_last_range (h : History) (f l : Z) :
  limiting_waffles h = Some (f, l) -> 1 <= l <= len h /\ h <> [].
Proof.
  intro Hlw. destruct h as [|v t]; [discriminate|].
  rewrite limiting_waffles_nonempty in Hlw by discriminate.
  injection Hlw as _ <-.
  pose proof (scan_backwards_lower (rev (v :: t)) (len (v :: t))
                (hd 0 (rev (v :: t)))) as Hlow.
  assert (Hr : len (rev (v :: t)) = len (v :: t))
    by (unfold len; now rewrite length_rev).
  rewrite Hr in Hlow. rewrite len_cons in *. pose proof (len_nonneg t).
  cbn [rev] in *. split; [lia|discriminate].
Qed.

Lemma plot_users_some (tb : bool) (times : DatetimeList)
    (fw lw : IndexLookup) (items : list (string * History)) :
  (forall u h, In (u, h) items ->
     List.length h = List.length times
     /\ exists f l, limiting_waffles h = Some (f, l)
                    /\ Dict.get u fw = Some f /\ Dict.get u lw = Some l) ->
  exists drawn,
    plot_users tb times fw lw items = Some drawn
    /\ map (fun d => line_label (fst d)) drawn = map fst items
    /\ forall d, In d drawn ->
         List.length (line_x (fst d)) = List.length (line_y (fst d))
         /\ exists u h f l,
              In (u, h) items /\ limiting_waffles h = Some (f, l)
              /\ line_label (fst d) = u
              /\ line_x (fst d) = py_slice f l times
              /\ line_y (fst d) = py_slice f l h
              /\ (tb = true -> snd d <> None)
              /\ forall box, snd d = Some box ->
                   text_user box = u
                   /\ py_index (l - 1) times = Some (text_x box)
                   /\ py_index (l - 1) h = Some (text_y box)
                   /\ py_index LAST h = Some (text_count box).
Proof.
  induction items as [|[u h] items IH]; intro Hall.
  - exists []. split; [reflexivity|]. split; [reflexivity|]. intros d0 [].
  - destruct IH as (more & Hmore & Hlabels & Hlens).
    { intros u' h' Hin. apply Hall. now right. }
    destruct (Hall u h (or_introl eq_refl)) as (Hlen & f & l & Hlw & Hf & Hl).
    destruct (limiting_waffles_last_range _ Hlw) as [Hrange Hne].
    assert (Hlenz : len times = len h) by (unfold len; now rewrite Hlen).
    assert (Hline : List.length (py_slice f l times)
                    = List.length (py_slice f l h)).
    { apply Nat2Z.inj. fold (len (py_slice f l times)).
      fold (len (py_slice f l h)). now rewrite !py_slice_length, Hlenz. }
    assert (Hdrawn : exists d,
              plot_user tb times fw lw (u, h) = Some d
              /\ List.length (line_x (fst d)) = List.length (line_y (fst d))
              /\ line_label (fst d) = u
              /\ line_x (fst d) = py_slice f l times
              /\ line_y (fst d) = py_slice f l h
              /\ (tb = true -> snd d <> None)
              /\ forall box, snd d = Some box ->
                   text_user box = u
                   /\ py_index (l - 1) times = Some (text_x box)
                   /\ py_index (l - 1) h = Some (text_y box)
                   /\ py_index LAST h = Some (text_count box)).
    { unfold plot_user. cbn [fst snd]. rewrite Hf, Hl. destruct tb.
      - destruct (@py_index_valid _ (l - 1) times) as (x & Hx & _); [lia|].
        destruct (@py_index_valid _ (l - 1) h) as (y & Hy & _); [lia|].
        rewrite Hx, Hy, (py_index_last 0 Hne).
        eexists. split; [reflexivity|]. cbn [fst snd line_label line_x line_y].
        split; [exact Hline|]. split; [reflexivity|]. split; [reflexivity|].
        split; [reflexivity|]. split; [discriminate|].
        intros box [= <-]. cbn. auto.
      - eexists. split; [reflexivity|]. cbn [fst snd line_label line_x line_y].
        split; [exact Hline|]. split; [reflexivity|]. split; [reflexivity|].
        split; [reflexivity|]. split; [discriminate|].
        intros box. discriminate. }
    destruct Hdrawn as (d & Hd & Hdlen & Hlabel & Hrest).
    exists (d :: more). cbn [plot_users]. rewrite Hd, Hmore.
    split; [reflexivity|]. split.
    + cbn [map fst]. now rewrite Hlabel, Hlabels.
    + intros d' [<-|Hin].
      * split; [exact Hdlen|]. exists u, h, f, l.
        split; [now left|]. split; [exact Hlw|]. split; [exact Hlabel|exact Hrest].
      * destruct (Hlens d' Hin) as (Hl' & u' & h' & f' & l' & Hi & Hrest').
        split; [exact Hl'|]. exists u', h', f', l'. split; [now right|exact Hrest'].
Qed.

Lemma final_counts_some (items : list (string * History)) :
  (forall u h, In (u, h) items -> h <> []) ->
  final_counts items = Some (map (fun item => List.last (snd item) 0) items).
Proof.
  induction items as [|[u h] items IH]; intro Hall; [reflexivity|].
  cbn [final_counts map snd].
  rewrite (py_index_last 0 (Hall u h (or_introl eq_refl))).
  rewrite IH by (intros u' h' Hin; apply (Hall u' h'); now right).
  reflexivity.
Qed.

Lemma parsed_facts (MAX_RANK : Z) (rows : RowList) :
  exists times hist,
    parse_waffle_rows MAX_RANK rows = Some (times, hist)
    /\ NoDup (Dict.keys hist)
    /\ (forall u h, In (u, h) hist ->
          List.length h = List.length times /\ h <> [])
    /\ (forall u, In u (Dict.keys hist)
                  <-> In u (Dict.keys (get_top_users MAX_RANK rows)))
    /\ (get_top_users MAX_RANK rows <> [] -> times <> [] /\ hist <> [])
    /\ ((forall r, In r rows -> 0 <= waffles r) ->
        forall u h, In (u, h) hist -> nondecreasing h).
Proof.
  destruct (series_result MAX_RANK rows)
    as (st & Hparse & (Hnd & Hndh & Hlen & Hnone) & Hkeys & Htimes & Hb).
  exists (consumption_times st), (history_lookup st).
  assert (Hiff : forall u, In u (Dict.keys (history_lookup st))
                   <-> In u (Dict.keys (get_top_users MAX_RANK rows))).
  { intro u. rewrite <- Hkeys. split.
    - intro Hin. apply DictFacts.in_keys_get in Hin.
      destruct (Dict.get u (history_lookup st)) as [h|] eqn:Hh; [|congruence].
      now destruct (Hlen _ _ Hh).
    - intro Hin. apply DictFacts.in_keys_get. intro Hh.
      apply (Hnone u Hin) in Hh. revert Hh. apply Htimes.
      intro Hnil. rewrite Hkeys, Hnil in Hin. destruct Hin. }
  split; [exact Hparse|]. split; [exact Hndh|]. split; [|split; [exact Hiff|split]].
  - intros u h Hin. apply (@DictFacts.in_get _ _ _ _ Hndh) in Hin.
    destruct (Hlen _ _ Hin) as [Hl Hu]. split; [exact Hl|].
    intros ->. rewrite Hkeys in Hu. apply Htimes.
    + intro Hnil. rewrite Hnil in Hu. destruct Hu.
    + destruct (consumption_times st); [reflexivity|discriminate].
  - intro Hne. split; [now apply Htimes|].
    intro Hnil. destruct (get_top_users MAX_RANK rows) as [|[u c] top] eqn:Htop;
      [congruence|].
    assert (Hin : In u (Dict.keys (history_lookup st))) by (apply Hiff; now left).
    rewrite Hnil in Hin. destruct Hin.
  - intros Hpos u h Hin. apply (@DictFacts.in_get _ _ _ _ Hndh) in Hin.
    now destruct (Hb Hpos _ _ Hin).
Qed.

Lemma do_plot_some (tb : bool) (times : DatetimeList) (hist : HistoryLookup) :
  NoDup (Dict.keys hist) ->
  (forall u h, In (u, h) hist -> List.length h = List.length times /\ h <> []) ->
  times <> [] -> hist <> [] ->
  exists drawn top xl,
    do_plot tb times hist = Some (mkPlot drawn (0, top) xl)
    /\ py_max (map (fun item => List.last (snd item) 0) hist) = Some top
    /\ map (fun d => line_label (fst d)) drawn = Dict.keys hist
    /\ forall d, In d drawn ->
         List.length (line_x (fst d)) = List.length (line_y (fst d))
         /\ exists u h f l,
              In (u, h) hist /\ limiting_waffles h = Some (f, l)
              /\ line_label (fst d) = u
              /\ line_x (fst d) = py_slice f l times
              /\ line_y (fst d) = py_slice f l h
              /\ (tb = true -> snd d <> None)
              /\ forall box, snd d = Some box ->
                   text_user box = u
                   /\ py_index (l - 1) times = Some (text_x box)
                   /\ py_index (l - 1) h = Some (text_y box)
                   /\ py_index LAST h = Some (text_count box).
Proof.
  intros Hnd Hall Htimes Hhist.
  destruct (get_limiting_waffles hist) as [[fw lw]|] eqn:Hlim.
  2:{ apply limiting_loop_none in Hlim. destruct Hlim as [u Hin].
      now destruct (Hall u [] Hin). }
  destruct (@limiting_loop_some hist [] [] fw lw) as (_ & _ & _ & Hentries); auto.
  destruct (@plot_users_some tb times fw lw hist) as (drawn & Hdrawn & Hlabels & Hd).
  { intros u h Hin. split; [now apply (Hall u h)|now apply Hentries]. }
  assert (Hfinals : final_counts hist
                    = Some (map (fun item => List.last (snd item) 0) hist)).
  { apply final_counts_some. intros u h Hin. now apply (Hall u h). }
  destruct (map (fun item => List.last (snd item) 0) hist) as [|c cs] eqn:Hmap.
  { destruct hist; [congruence|discriminate]. }
  assert (Hlen : 0 <= 0 < len times).
  { unfold len. destruct times; [congruence|cbn; lia]. }
  destruct (@py_index_valid _ FIRST times Hlen) as (t0 & Ht0 & _).
  exists drawn, (fold_left Z.max cs c), (t0, List.last times t0).
  unfold do_plot. rewrite Hlim, Hdrawn, Hfinals. cbn [py_max].
  rewrite Ht0, (py_index_last t0 Htimes).
  split; [reflexivity|]. split; [reflexivity|]. split; [exact Hlabels|exact Hd].
Qed.

(** When the cohort is not empty, [do_plot] does not raise on what
    [parse_waffle_rows] returns: no key is missing and no index is out of
    range.  It draws one line for every user of the cohort, labelled with the
    user, and gives [ax.plot] as many times as counts. *)
Theorem plot_of_parsed_rows (MAX_RANK : Z) (DO_TEXTBOXES : bool) (rows : RowList) :
  get_top_users MAX_RANK rows <> [] ->
  exists p,
    do_it MAX_RANK DO_TEXTBOXES rows = Some p
    /\ (forall u, In u (map (fun d => line_label (fst d)) (plot_drawn p))
                  <-> In u (Dict.keys (get_top_users MAX_RANK rows)))
    /\ NoDup (map (fun d => line_label (fst d)) (plot_drawn p))
    /\ forall d, In d (plot_drawn p) ->
         List.length (line_x (fst d)) = List.length (line_y (fst d)).
Proof.
  intro Hne.
  destruct (parsed_facts MAX_RANK rows)
    as (times & hist & Hparse & Hnd & Hall & Hiff & Hnonempty & _).
  destruct (Hnonempty Hne) as [Htimes Hhist].
  destruct (@do_plot_some DO_TEXTBOXES times hist Hnd Hall Htimes Hhist)
    as (drawn & top & xl & Hplot & _ & Hlabels & Hd).
  exists (mkPlot drawn (0, top) xl). unfold do_it. rewrite Hparse.
  split; [exact Hplot|]. cbn [plot_drawn]. rewrite Hlabels.
  split; [exact Hiff|]. split; [exact Hnd|].
  intros d Hin. now destruct (Hd d Hin).
Qed.

Lemma plot_of_parsed_rows_witness :
  get_top_users 10 constant_tail <> [] /\
  exists p,
    do_it 10 true constant_tail = Some p
    /\ (forall u, In u (map (fun d => line_label (fst d)) (plot_drawn p))
                  <-> In u (Dict.keys (get_top_users 10 constant_tail)))
    /\ NoDup (map (fun d => line_label (fst d)) (plot_drawn p))
    /\ forall d, In d (plot_drawn p) ->
         List.length (line_x (fst d)) = List.length (line_y (fst d)).
Proof.
  assert (Hne : get_top_users 10 constant_tail <> []) by (vm_compute; discriminate).
  split; [exact Hne|].
  apply (@plot_of_parsed_rows 10 true constant_tail Hne).
Defined.

Lemma nondecreasing_tail (a : Z) (t : History) :
  nondecreasing (a :: t) -> nondecreasing t.
Proof. intros H i x y Hx Hy. exact (H (S i) x y Hx Hy). Qed.

Lemma nondecreasing_le_last (h : History) (x : Z) :
  nondecreasing h -> In x h -> x <= List.last h 0.
Proof.
  revert x. induction h as [|a t IH]; intros x Hmono Hin; [destruct Hin|].
  pose proof (nondecreasing_tail Hmono) as Ht.
  destruct t as [|b t'].
  - destruct Hin as [<-|[]]. cbn. lia.
  - change (List.last (a :: b :: t') 0) with (List.last (b :: t') 0).
    destruct Hin as [<-|Hin]; [|now apply IH].
    assert (a <= b) by (apply (Hmono 0%nat); reflexivity).
    assert (b <= List.last (b :: t') 0) by (apply IH; [exact Ht|now left]).
    lia.
Qed.

Lemma fold_left_max_ge (l : list Z) (a : Z) :
  a <= fold_left Z.max l a /\ forall y, In y l -> y <= fold_left Z.max l a.
Proof.
  revert a. induction l as [|b l IH]; intro a; cbn [fold_left].
  - split; [lia|intros y []].
  - destruct (IH (Z.max a b)) as [Ha Hl]. split; [lia|].
    intros y [<-|Hy]; [lia|now apply Hl].
Qed.

Lemma py_max_ge (l : list Z) (top y : Z) :
  py_max l = Some top -> In y l -> y <= top.
Proof.
  destruct l as [|a l]; [discriminate|]. cbn [py_max]. intros [= <-] Hin.
  destruct (fold_left_max_ge l a) as [Ha Hl].
  destruct Hin as [<-|Hin]; [exact Ha|now apply Hl].
Qed.

Lemma history_counts_nonneg (MAX_RANK : Z) (rows : RowList)
    (times : DatetimeList) (hist : HistoryLookup) :
  (forall r, In r rows -> 0 <= waffles r) ->
  parse_waffle_rows MAX_RANK rows = Some (times, hist) ->
  forall u h y, In (u, h) hist -> In y h -> 0 <= y.
Proof.
  intros Hpos Hparse u h y Hin Hy.
  destruct (parse_waffle_rows_total MAX_RANK rows) as (st & Hloop & Hparse').
  rewrite Hparse in Hparse'. injection Hparse' as -> ->.
  destruct (series_result MAX_RANK rows) as (st0 & Hparse0 & Hal & _).
  rewrite Hparse in Hparse0. injection Hparse0 as Ht Hh.
  destruct Hal as (_ & Hndh & _). rewrite <- Hh in Hndh.
  pose proof (@series_after_loop _ [] _ _
                (aligned_init MAX_RANK rows)
                (series_after_init (get_top_users MAX_RANK rows)) Hloop)
    as (_ & _ & _ & Hhist).
  cbn [app] in Hhist.
  apply (@DictFacts.in_get _ _ _ _ Hndh) in Hin. apply Hhist in Hin. subst h.
  apply in_map_iff in Hy. destruct Hy as ([pre r] & <- & Hb).
  apply in_snapshots in Hb. destruct Hb as [[post Hkept] _].
  unfold total_at. cbn [fst snd]. apply running_total_nonneg.
  intros r0 Hr0. apply Hpos.
  assert (Hk : In r0 (cohort_rows (get_top_users MAX_RANK rows) rows)).
  { rewrite Hkept. apply in_app_or in Hr0. apply in_or_app.
    destruct Hr0 as [H|[<-|[]]]; [now left|right; now left]. }
  unfold cohort_rows in Hk. now apply filter_In in Hk.
Qed.

(** The slice of a history between its two indices is empty exactly when
    the history is constant and has at least two entries. *)
Lemma slice_empty_iff_constant (history : History) (first last : Z) :
  limiting_waffles history = Some (first, last) ->
  (py_slice first last history = [] <-> constant history /\ 2 <= len history).
Proof.
  intro Hlw. destruct history as [|v t]; [discriminate|].
  assert (Hempty : py_slice first last (v :: t) = []
                   <-> len (py_slice first last (v :: t)) = 0).
  { unfold len. destruct (py_slice first last (v :: t)); cbn; split;
      intro H; try reflexivity; try discriminate; lia. }
  rewrite Hempty, py_slice_length. clear Hempty.
  destruct (list_eq_dec Z.eq_dec (v :: t) (repeat v (S (List.length t))))
    as [Hrep|Hrep].
  - assert (Hc : constant (v :: t)) by (apply constant_repeat; exact Hrep).
    rewrite Hrep in Hlw at 1. rewrite limiting_waffles_constant in Hlw.
    injection Hlw as <- <-. rewrite len_cons. unfold slice_index, len.
    destruct (Z.ltb_spec 1 0); [lia|].
    destruct (Z.ltb_spec (Z.of_nat (List.length t)) 0); [lia|].
    split; [intro Hz; split; [exact Hc|lia]|intros [_ Hz]; lia].
  - assert (Hc : ~ constant (v :: t)).
    { intro Hc. apply Hrep. now apply constant_repeat in Hc. }
    destruct (not_constant_split Hc) as (n & c & tail & Hcv & Heq).
    destruct (@limiting_waffles_change v c n tail Hcv) as (l & Hl & Hrange).
    rewrite <- Heq, Hlw in Hl. injection Hl as -> ->.
    rewrite <- Heq in Hrange. unfold slice_index.
    destruct (Z.ltb_spec l 0); [lia|].
    destruct (Z.ltb_spec (Z.of_nat n) 0); [lia|].
    split; [lia|intros [Hz _]; contradiction].
Qed.

(** For a history that changes at all, the entry before index [last]
    differs from the final entry. *)
Lemma entry_before_last_differs (history : History) (first last y c : Z) :
  ~ constant history ->
  limiting_waffles history = Some (first, last) ->
  py_index (last - 1) history = Some y ->
  py_index LAST history = Some c ->
  y <> c.
Proof.
  intros Hc Hlw Hy Hlast.
  destruct (not_constant_split_end Hc) as (front & x & z & m & Hxz & ->).
  destruct (@limiting_waffles_end front x z m Hxz) as (f & Hf).
  rewrite Hlw in Hf. injection Hf as _ ->.
  set (h := front ++ x :: repeat z (S m)) in *.
  assert (Hne : h <> []) by (unfold h; destruct front; discriminate).
  rewrite (py_index_last 0 Hne) in Hlast. injection Hlast as <-.
  assert (Hlastz : List.last h 0 = z).
  { unfold h. change (x :: repeat z (S m)) with ([x] ++ repeat z (S m)).
    rewrite app_assoc. rewrite <- rev_repeat_eq. cbn [repeat rev].
    rewrite app_assoc. apply last_last. }
  rewrite Hlastz.
  assert (Hyx : py_index (len front + 1 - 1) h = Some x).
  { unfold py_index. replace (len front + 1 - 1) with (len front) by lia.
    pose proof (len_nonneg front).
    assert (Hlen : len h = len front + 1 + Z.of_nat (S m)).
    { unfold h. rewrite len_app, len_cons, len_repeat. lia. }
    destruct (Z.ltb_spec (len front) 0); [lia|].
    destruct (Z.leb_spec 0 (len front)); [|lia].
    destruct (Z.ltb_spec (len front) (len h)); [|lia].
    cbn [andb]. unfold len at 1. rewrite Nat2Z.id.
    unfold h. rewrite nth_error_app2 by lia. now rewrite Nat.sub_diag. }
  rewrite Hyx in Hy. injection Hy as <-. exact Hxz.
Qed.

(** ** The ranking of a snapshot *)

Section Ranking.

Lemma first_seen_in (events : RowList) (u : string) :
  In u (first_seen events) <-> In u (map username events).
Proof.
  induction events as [|r events IH]; [reflexivity|].
  cbn [first_seen map In]. rewrite filter_In, IH.
  destruct (String.eqb_spec u (username r)) as [->|Hne]; cbn [negb].
  - split; intros _; now left.
  - split.
    + intros [H|[H _]]; [now left|now right].
    + intros [H|H]; [now left|right; split; [exact H|reflexivity]].
Qed.

Lemma first_seen_snoc (events : RowList) (r : row) :
  first_seen (events ++ [r]) =
    if in_dec string_dec (username r) (first_seen events)
    then first_seen events else first_seen events ++ [username r].
Proof.
  induction events as [|r0 events IH].
  - cbn. reflexivity.
  - cbn [app first_seen]. rewrite IH.
    destruct (in_dec string_dec (username r) (first_seen events)) as [Hin|Hout].
    + destruct (in_dec string_dec (username r) _) as [_|Hno]; [reflexivity|].
      exfalso. apply Hno. cbn [In].
      destruct (string_dec (username r0) (username r)) as [Heq|Hne]; [now left|].
      right. apply filter_In. split; [exact Hin|].
      destruct (String.eqb_spec (username r) (username r0)); [congruence|reflexivity].
    + rewrite filter_app. cbn [filter].
      destruct (String.eqb_spec (username r) (username r0)) as [Heq|Hne]; cbn [negb].
      * rewrite app_nil_r.
        destruct (in_dec string_dec (username r) _) as [_|Hno]; [reflexivity|].
        exfalso. apply Hno. left. congruence.
      * destruct (in_dec string_dec (username r) _) as [Hyes|_]; [|reflexivity].
        exfalso. destruct Hyes as [Heq|Hin]; [congruence|].
        apply filter_In in Hin. now apply Hout.
Qed.

(** The dict of totals holds the users in the order in which they are first
    seen. *)
Lemma keys_totals_first_seen (events : RowList) :
  Dict.keys (totals events) = first_seen events.
Proof.
  induction events as [|r events IH] using rev_ind; [reflexivity|].
  rewrite totals_snoc, first_seen_snoc. unfold add_waffles.
  destruct (in_dec string_dec (username r) (first_seen events)) as [Hin|Hout].
  - rewrite DictFacts.keys_set_present by now rewrite IH. exact IH.
  - rewrite DictFacts.keys_set_absent by now rewrite IH. now rewrite IH.
Qed.

Lemma filter_all (A : Type) (g : A -> bool) (l : list A) :
  (forall x, In x l -> g x = true) -> filter g l = l.
Proof.
  induction l as [|x l IH]; intro H; [reflexivity|]. cbn [filter].
  rewrite (H x) by now left. f_equal. apply IH. intros y Hy. apply H. now right.
Qed.

Lemma filter_none (A : Type) (g : A -> bool) (l : list A) :
  (forall x, In x l -> g x = false) -> filter g l = [].
Proof.
  induction l as [|x l IH]; intro H; [reflexivity|]. cbn [filter].
  rewrite (H x) by now left. apply IH. intros y Hy. apply H. now right.
Qed.

Lemma permutation_filter (A : Type) (g : A -> bool) (l l' : list A) :
  Permutation l l' -> Permutation (filter g l) (filter g l').
Proof.
  induction 1 as [|x l l' _ IH|x y l|l l' l'' _ IH1 _ IH2]; cbn [filter].
  - constructor.
  - destruct (g x); [now constructor|exact IH].
  - destruct (g x); destruct (g y); try reflexivity. apply perm_swap.
  - now transitivity (filter g l').
Qed.

Lemma filter_split (A : Type) (g : A -> bool) (l m1 m2 : list A) (y : A) :
  filter g l = m1 ++ y :: m2 ->
  exists l1 l2, l = l1 ++ y :: l2 /\ filter g l1 = m1 /\ filter g l2 = m2.
Proof.
  revert m1. induction l as [|z l IH]; intros m1 H.
  - destruct m1; discriminate.
  - cbn [filter] in H. destruct (g z) eqn:Hz.
    + destruct m1 as [|z' m1]; cbn [app] in H.
      * injection H as -> Hl. exists [], l. auto.
      * injection H as -> Hl. destruct (IH _ Hl) as (l1 & l2 & -> & H1 & H2).
        exists (z' :: l1), l2. cbn [filter app]. rewrite Hz, H1. auto.
    + destruct (IH _ H) as (l1 & l2 & -> & H1 & H2).
      exists (z :: l1), l2. cbn [filter app]. rewrite Hz. auto.
Qed.

Lemma occurs_before_filter (A : Type) (g : A -> bool) (l : list A) (x y : A) :
  g x = true -> g y = true ->
  (occurs_before (filter g l) x y <-> occurs_before l x y).
Proof.
  intros Hx Hy. split.
  - intros (m1 & m2 & Heq & Hin).
    destruct (@filter_split _ g l m1 m2 y Heq) as (l1 & l2 & -> & H1 & _).
    exists l1, l2. split; [reflexivity|].
    rewrite <- H1 in Hin. now apply filter_In in Hin.
  - intros (l1 & l2 & -> & Hin).
    exists (filter g l1), (filter g l2). rewrite filter_app. cbn [filter].
    rewrite Hy. split; [reflexivity|]. apply filter_In. auto.
Qed.

Lemma index_of_absent_prefix (a : string) (k1 k2 : list string) :
  ~ In a k1 -> index_of a (k1 ++ a :: k2) = List.length k1.
Proof.
  induction k1 as [|x k1 IH]; intro Hout; cbn [app index_of List.length].
  - now rewrite String.eqb_refl.
  - destruct (String.eqb_spec x a) as [->|Hne]; [exfalso; apply Hout; now left|].
    f_equal. apply IH. intro H. apply Hout. now right.
Qed.

Lemma index_of_in_prefix (b : string) (k1 k2 : list string) :
  In b k1 -> (index_of b (k1 ++ k2) < List.length k1)%nat.
Proof.
  induction k1 as [|x k1 IH]; intro Hin; [destruct Hin|].
  cbn [app index_of List.length].
  destruct (String.eqb_spec x b) as [->|Hne]; [lia|].
  destruct Hin as [Heq|Hin]; [congruence|]. specialize (IH Hin). lia.
Qed.

(** In a dict, an item that comes before another has the smaller index
    among the keys. *)
Lemma occurs_before_index (users : CountLookup) (a b : string) (va vb : Z) :
  NoDup (Dict.keys users) ->
  occurs_before users (b, vb) (a, va) ->
  (index_of b (Dict.keys users) < index_of a (Dict.keys users))%nat.
Proof.
  intros Hnd (l1 & l2 & -> & Hin). unfold Dict.keys in *.
  rewrite map_app in *. cbn [map fst] in *.
  rewrite index_of_absent_prefix by (now apply NoDup_remove_2 in Hnd;
    intro H; apply Hnd, in_or_app; left).
  rewrite length_map.
  pose proof (@index_of_in_prefix b (map fst l1) (a :: map fst l2)) as Hlt.
  rewrite length_map in Hlt. apply Hlt.
  change b with (fst (b, vb)). now apply in_map.
Qed.

Lemma in_firstn_split (a : string) (l1 l2 : list string) (k : nat) :
  ~ In a l1 ->
  (In a (firstn k (l1 ++ a :: l2)) <-> (List.length l1 < k)%nat).
Proof.
  intro Hout. rewrite firstn_app, in_app_iff. split.
  - intros [Hin|Hin].
    + exfalso. apply Hout. rewrite <- (firstn_skipn k l1).
      apply in_or_app. now left.
    + destruct (k - List.length l1)%nat eqn:E; [destruct Hin|lia].
  - intro Hlt. right.
    destruct (k - List.length l1)%nat eqn:E; [lia|]. now left.
Qed.

End Ranking.

Lemma index_ltb_irrefl (n : nat) : (n <? n)%nat = false.
Proof. apply Nat.ltb_irrefl. Qed.

(** In the sorted items of the totals, the items before the item of a user
    are as many as the rank of the user. *)
Lemma sorted_position_is_rank (events : RowList) (a : string) (va : Z)
    (S1 S2 : list (string * Z)) :
  fold_right insert_by_count [] (totals events) = S1 ++ (a, va) :: S2 ->
  List.length S1 = rank events a.
Proof.
  intro HS.
  set (users := totals events) in *.
  set (S := fold_right insert_by_count [] users) in *.
  pose proof (sorted_items_perm users) as Hperm. fold S in Hperm.
  pose proof (sorted_items_sorted users) as Hsorted. fold S in Hsorted.
  pose proof (nodup_keys_totals events) as Hnd. fold users in Hnd.
  assert (Hval : forall u v, In (u, v) S -> v = running_total u events).
  { intros u v Hin. apply (Permutation_in _ Hperm) in Hin.
    apply (@DictFacts.in_get _ _ _ _ Hnd) in Hin.
    rewrite <- totals_running_total. fold users.
    unfold Dict.get_default. now rewrite Hin. }
  assert (Hstable : forall x y, snd x = snd y ->
            occurs_before S x y -> occurs_before users x y).
  { intros x y Hxy Hocc.
    assert (Hx : (snd x =? snd y) = true) by (apply Z.eqb_eq; exact Hxy).
    assert (Hy : (snd y =? snd y) = true) by apply Z.eqb_refl.
    apply (occurs_before_filter (fun z => snd z =? snd y) S x y Hx Hy) in Hocc.
    unfold S in Hocc. rewrite filter_sorted_items in Hocc.
    now apply (occurs_before_filter (fun z => snd z =? snd y) users x y Hx Hy). }
  assert (Ha : In (a, va) S) by (rewrite HS; apply in_or_app; right; now left).
  pose proof (Hval a va Ha) as Hva.
  assert (Hbefore : forall b vb, In (b, vb) S1 -> outranked_by events a b = true).
  { intros b vb Hb.
    assert (HbS : In (b, vb) S) by (rewrite HS; apply in_or_app; now left).
    pose proof (Hval b vb HbS) as Hvb.
    rewrite HS in Hsorted.
    pose proof (@sorted_app_outranks _ _ _ _ Hsorted Hb (or_introl eq_refl)) as Hle.
    unfold outranks in Hle. cbn [snd] in Hle. unfold outranked_by.
    rewrite <- Hva, <- Hvb.
    destruct (Z.ltb_spec va vb) as [Hlt|Hge]; [reflexivity|].
    assert (Heq : vb = va) by lia. clear Hvb Hle Hge. subst vb.
    rewrite Z.eqb_refl. cbn [orb andb].
    apply Nat.ltb_lt. rewrite <- keys_totals_first_seen. fold users.
    apply (@occurs_before_index users a b va va Hnd).
    apply Hstable; [reflexivity|]. exists S1, S2. auto. }
  assert (Hafter : forall b vb, In (b, vb) S2 -> outranked_by events a b = false).
  { intros b vb Hb.
    assert (HbS : In (b, vb) S)
      by (rewrite HS; apply in_or_app; right; now right).
    pose proof (Hval b vb HbS) as Hvb.
    rewrite HS in Hsorted.
    change (S1 ++ (a, va) :: S2) with (S1 ++ [(a, va)] ++ S2) in Hsorted.
    rewrite app_assoc in Hsorted.
    assert (Hain : In (a, va) (S1 ++ [(a, va)]))
      by (apply in_or_app; right; now left).
    pose proof (@sorted_app_outranks _ _ _ _ Hsorted Hain Hb) as Hle.
    unfold outranks in Hle. cbn [snd] in Hle. unfold outranked_by.
    rewrite <- Hva, <- Hvb.
    destruct (Z.ltb_spec va vb) as [Hlt|Hge]; [lia|]. cbn [orb].
    destruct (Z.eqb_spec vb va) as [Heq|Hne]; [|reflexivity].
    clear Hvb Hle Hge. subst vb. cbn [andb]. apply Nat.ltb_ge. apply Nat.lt_le_incl.
    rewrite <- keys_totals_first_seen. fold users.
    apply (@occurs_before_index users b a va va Hnd).
    apply Hstable; [reflexivity|].
    apply in_split in Hb. destruct Hb as (S2a & S2b & ->).
    exists (S1 ++ (a, va) :: S2a), S2b. split.
    - rewrite HS, <- app_assoc. reflexivity.
    - apply in_or_app. right. now left. }
  assert (Hself : outranked_by events a a = false).
  { unfold outranked_by. rewrite Z.ltb_irrefl, index_ltb_irrefl.
    now rewrite andb_false_r. }
  unfold rank. rewrite <- keys_totals_first_seen. fold users.
  assert (HpK : Permutation (map fst S) (Dict.keys users))
    by (apply Permutation_map; exact Hperm).
  rewrite <- (Permutation_length
                (permutation_filter (outranked_by events a) HpK)).
  rewrite HS, map_app, filter_app. cbn [map filter fst]. rewrite Hself.
  rewrite filter_all, filter_none.
  - rewrite app_nil_r. now rewrite length_map.
  - intros b Hb. apply in_map_iff in Hb. destruct Hb as ([b' vb] & <- & Hb).
    exact (Hafter _ _ Hb).
  - intros b Hb. apply in_map_iff in Hb. destruct Hb as ([b' vb] & <- & Hb).
    exact (Hbefore _ _ Hb).
Qed.

(** For [0 <= MAX_RANK], the users [sorted(...)[:MAX_RANK]] takes are the
    users of rank below [MAX_RANK]. *)
Lemma top_ranked_ranks_within (MAX_RANK : Z) (events : RowList) (a : string) :
  0 <= MAX_RANK ->
  (In a (top_ranked MAX_RANK events) <-> ranks_within MAX_RANK events a).
Proof.
  intro Hm. unfold top_ranked, ranks_within, sorted_by_count.
  rewrite slice_to_firstn by exact Hm.
  set (S := fold_right insert_by_count [] (totals events)).
  pose proof (sorted_items_perm (totals events)) as Hperm. fold S in Hperm.
  assert (HpK : Permutation (map fst S) (first_seen events)).
  { rewrite <- keys_totals_first_seen. apply Permutation_map. exact Hperm. }
  assert (Hnd : NoDup (map fst S)).
  { apply (Permutation_NoDup (Permutation_sym HpK)).
    rewrite <- keys_totals_first_seen. apply nodup_keys_totals. }
  assert (Hpos : In a (map fst S) ->
            exists va S1 S2, S = S1 ++ (a, va) :: S2 /\ ~ In a (map fst S1)).
  { intro Hin. apply in_map_iff in Hin. destruct Hin as ([a' va] & Hfst & Hin).
    cbn in Hfst. subst a'. apply in_split in Hin.
    destruct Hin as (S1 & S2 & HS). exists va, S1, S2. split; [exact HS|].
    rewrite HS, map_app in Hnd. cbn [map fst] in Hnd.
    apply NoDup_remove_2 in Hnd. intro H. apply Hnd, in_or_app. now left. }
  split.
  - intro Hin.
    assert (HinS : In a (map fst S)).
    { rewrite <- (firstn_skipn (Z.to_nat MAX_RANK) (map fst S)).
      apply in_or_app. now left. }
    split; [now apply (Permutation_in _ HpK)|].
    destruct (Hpos HinS) as (va & S1 & S2 & HS & Hout).
    rewrite HS, map_app in Hin. cbn [map fst] in Hin.
    apply in_firstn_split in Hin; [|exact Hout].
    rewrite length_map in Hin.
    rewrite <- (sorted_position_is_rank events a va S1 S2 HS). lia.
  - intros [Hseen Hrank].
    assert (HinS : In a (map fst S))
      by now apply (Permutation_in _ (Permutation_sym HpK)).
    destruct (Hpos HinS) as (va & S1 & S2 & HS & Hout).
    rewrite HS, map_app. cbn [map fst].
    apply in_firstn_split; [exact Hout|].
    rewrite length_map.
    rewrite <- (sorted_position_is_rank events a va S1 S2 HS) in Hrank. lia.
Qed.

(** ** Day boundaries, from the rows alone *)

Lemma crosses_day_changes (before : RowList) (r : row) :
  crosses_day before r <-> day_changes before r.
Proof.
  unfold crosses_day, day_changes.
  destruct before as [|p before _] using rev_ind.
  - cbn. tauto.
  - rewrite last_day_snoc, rev_app_distr. cbn [rev app is_new_day].
    destruct (Z.eqb_spec (day (time r)) (day (time p))) as [Heq|Hne]; cbn [negb].
    + split; [discriminate|]. intro H. exfalso. apply H. now symmetry.
    + split; [|reflexivity]. intros _ H. apply Hne. now symmetry.
Qed.

Lemma snapshot_at_boundary_at (rows before : RowList) (r : row) :
  snapshot_at rows before r <-> boundary_at rows before r.
Proof. unfold snapshot_at, boundary_at. now rewrite crosses_day_changes. Qed.

(** ** The cohort, by rank *)

(** C5: for [0 <= MAX_RANK], an actor is in the cohort exactly when, at some
    day boundary, fewer than [MAX_RANK] actors are ranked before the actor
    by running total (the actors seen earlier first among equal totals); a
    later snapshot that leaves the actor out does not remove the actor. *)
Theorem cohort_is_union_of_snapshots (MAX_RANK : Z) (rows : RowList) (a : string) :
  0 <= MAX_RANK ->
  (In a (Dict.keys (get_top_users MAX_RANK rows)) <->
   exists before r,
     boundary_at rows before r /\ ranks_within MAX_RANK (before ++ [r]) a)
  /\ (forall r,
        In a (Dict.keys (get_top_users MAX_RANK rows)) ->
        In a (Dict.keys (get_top_users MAX_RANK (rows ++ [r])))).
Proof.
  intro Hm. split.
  - rewrite cohort_keys_snapshots. split.
    + intros (before & r & Hs & Hin). exists before, r.
      split; [now apply snapshot_at_boundary_at|].
      now apply top_ranked_ranks_within.
    + intros (before & r & Hs & Hin). exists before, r.
      split; [now apply snapshot_at_boundary_at|].
      now apply top_ranked_ranks_within.
  - intros r Hin. apply cohort_keys_snoc. now left.
Qed.

Lemma cohort_is_union_of_snapshots_witness :
  0 <= 1 /\
  (In "A"%string (Dict.keys (get_top_users 1 overtaken)) <->
   exists before r,
     boundary_at overtaken before r /\ ranks_within 1 (before ++ [r]) "A"%string)
  /\ (forall r,
        In "A"%string (Dict.keys (get_top_users 1 overtaken)) ->
        In "A"%string (Dict.keys (get_top_users 1 (overtaken ++ [r])))).
Proof.
  split; [lia|]. apply (@cohort_is_union_of_snapshots 1 overtaken "A"). lia.
Defined.

(** C10: for [0 <= MAX_RANK], the quantity stored for a cohort actor is the
    actor's running total as of the latest day boundary at which fewer than
    [MAX_RANK] actors are ranked before the actor; it can be strictly less
    than the actor's total over the whole stream. *)
Theorem cohort_value_is_latest_snapshot (MAX_RANK : Z) (rows : RowList)
    (a : string) (v : Z) :
  0 <= MAX_RANK ->
  (Dict.get a (get_top_users MAX_RANK rows) = Some v <->
   exists before r,
     boundary_at rows before r
     /\ ranks_within MAX_RANK (before ++ [r]) a
     /\ v = running_total a (before ++ [r])
     /\ forall before' r',
          boundary_at rows before' r' ->
          (List.length before < List.length before')%nat ->
          ~ ranks_within MAX_RANK (before' ++ [r']) a)
  /\ (exists (rows' : RowList) (a' : string) (v' : Z),
        Dict.get a' (get_top_users 1 rows') = Some v'
        /\ v' < running_total a' rows').
Proof.
  intro Hm. split.
  - rewrite cohort_value_latest. split.
    + intros (before & r & Hs & Hin & Hv & Hlatest). exists before, r.
      split; [now apply snapshot_at_boundary_at|].
      split; [now apply top_ranked_ranks_within|].
      split; [exact Hv|]. intros before' r' Hs' Hlt Hr.
      apply snapshot_at_boundary_at in Hs'.
      apply (Hlatest before' r' Hs' Hlt). now apply top_ranked_ranks_within.
    + intros (before & r & Hs & Hin & Hv & Hlatest). exists before, r.
      split; [now apply snapshot_at_boundary_at|].
      split; [now apply top_ranked_ranks_within|].
      split; [exact Hv|]. intros before' r' Hs' Hlt Hr.
      apply snapshot_at_boundary_at in Hs'.
      apply (Hlatest before' r' Hs' Hlt). now apply top_ranked_ranks_within.
  - exists evicted, "A"%string, 5. split; [reflexivity|]. cbn. lia.
Qed.

Lemma cohort_value_is_latest_snapshot_witness :
  0 <= 1 /\
  (Dict.get "A" (get_top_users 1 evicted) = Some 5 <->
   exists before r,
     boundary_at evicted before r
     /\ ranks_within 1 (before ++ [r]) "A"%string
     /\ 5 = running_total "A" (before ++ [r])
     /\ forall before' r',
          boundary_at evicted before' r' ->
          (List.length before < List.length before')%nat ->
          ~ ranks_within 1 (before' ++ [r']) "A"%string)
  /\ (exists (rows' : RowList) (a' : string) (v' : Z),
        Dict.get a' (get_top_users 1 rows') = Some v'
        /\ v' < running_total a' rows').
Proof.
  split; [lia|]. apply (@cohort_value_is_latest_snapshot 1 evicted "A" 5). lia.
Defined.

(** ** Day 31 followed by day 1 *)

Lemma parsed_series (MAX_RANK : Z) (rows : RowList) :
  exists times hist,
    parse_waffle_rows MAX_RANK rows = Some (times, hist)
    /\ times = map (fun b => time (snd b))
                  (snapshots (cohort_rows (get_top_users MAX_RANK rows) rows))
    /\ forall u h,
         In (u, h) hist ->
         h = map (total_at u)
                 (snapshots (cohort_rows (get_top_users MAX_RANK rows) rows)).
Proof.
  destruct (parse_waffle_rows_total MAX_RANK rows) as (st & Hloop & Hparse).
  destruct (series_result MAX_RANK rows) as (st0 & Hparse0 & Hal & _).
  assert (Hsame : history_lookup st0 = history_lookup st).
  { rewrite Hparse in Hparse0. injection Hparse0 as _ Hh. now symmetry. }
  destruct Hal as (_ & Hndh & _). rewrite Hsame in Hndh.
  pose proof (@series_after_loop _ [] _ _
                (aligned_init MAX_RANK rows)
                (series_after_init (get_top_users MAX_RANK rows)) Hloop)
    as (_ & Htimes & _ & Hhist).
  cbn [app] in Htimes, Hhist.
  exists (consumption_times st), (history_lookup st).
  split; [exact Hparse|]. split; [exact Htimes|].
  intros u h Hin. apply Hhist. now apply (@DictFacts.in_get _ _ _ _ Hndh).
Qed.

Lemma cohort_rows_app (top : CountLookup) (l1 l2 : RowList) :
  cohort_rows top (l1 ++ l2) = cohort_rows top l1 ++ cohort_rows top l2.
Proof. unfold cohort_rows. apply filter_app. Qed.

Lemma cohort_rows_kept (top : CountLookup) (r : row) (rest : RowList) :
  In (username r) (Dict.keys top) ->
  cohort_rows top (r :: rest) = r :: cohort_rows top rest.
Proof.
  intro Hin. apply DictFacts.mem_keys in Hin.
  unfold cohort_rows. cbn [filter]. now rewrite Hin.
Qed.

(** C8 (as the code has it): when an event on day of month 1 comes right
    after an event on day of month 31, [get_top_users] takes a snapshot at
    the second event, so every actor ranked within [MAX_RANK] there is in the
    cohort; [parse_waffle_rows] appends a day boundary for the second event
    (its time, and for every user the count as of that event) when the
    actors of both events are in the cohort, the two events then being
    neighbours among the rows it keeps. *)
Theorem month_end_is_day_boundary (MAX_RANK : Z) (pre post : RowList)
    (r1 r2 : row) :
  day (time r1) = 31 -> day (time r2) = 1 ->
  boundary_at (pre ++ r1 :: r2 :: post) (pre ++ [r1]) r2
  /\ get_top_users MAX_RANK (pre ++ [r1; r2]) =
     Dict.update (get_top_users MAX_RANK (pre ++ [r1]))
                 (top_snapshot MAX_RANK (totals (pre ++ [r1; r2])))
  /\ (0 <= MAX_RANK ->
      forall a,
        ranks_within MAX_RANK (pre ++ [r1; r2]) a ->
        In a (Dict.keys (get_top_users MAX_RANK (pre ++ r1 :: r2 :: post))))
  /\ (In (username r1)
         (Dict.keys (get_top_users MAX_RANK (pre ++ r1 :: r2 :: post))) ->
      In (username r2)
         (Dict.keys (get_top_users MAX_RANK (pre ++ r1 :: r2 :: post))) ->
      exists times hist,
        parse_waffle_rows MAX_RANK (pre ++ r1 :: r2 :: post) = Some (times, hist)
        /\ exists i,
             nth_error times i = Some (time r2)
             /\ forall u h,
                  In (u, h) hist ->
                  nth_error h i =
                    Some (running_total u
                            (cohort_rows
                               (get_top_users MAX_RANK (pre ++ r1 :: r2 :: post))
                               (pre ++ [r1; r2])))).
Proof.
  intros H31 H1.
  assert (Hcross : forall l, crosses_day (l ++ [r1]) r2).
  { intro l. unfold crosses_day. rewrite last_day_snoc, H31, H1. reflexivity. }
  assert (Hsnap : snapshot_at (pre ++ r1 :: r2 :: post) (pre ++ [r1]) r2).
  { split; [|apply Hcross]. exists post. now rewrite <- app_assoc. }
  split; [now apply snapshot_at_boundary_at|]. split; [|split].
  - change (pre ++ [r1; r2]) with (pre ++ [r1] ++ [r2]).
    rewrite app_assoc, get_top_users_snoc.
    pose proof (Hcross pre) as Hc. unfold crosses_day in Hc. now rewrite Hc.
  - intros Hm a Hrank. apply cohort_keys_snapshots.
    exists (pre ++ [r1]), r2. split; [exact Hsnap|].
    apply top_ranked_ranks_within; [exact Hm|].
    now rewrite <- app_assoc.
  - intros Hu1 Hu2.
    set (rows := pre ++ r1 :: r2 :: post) in *.
    set (top := get_top_users MAX_RANK rows) in *.
    destruct (parsed_series MAX_RANK rows) as (times & hist & Hparse & Htimes & Hhist).
    fold top in Htimes, Hhist.
    exists times, hist. split; [exact Hparse|].
    assert (Hkept : cohort_rows top rows
                    = (cohort_rows top pre ++ [r1]) ++ r2 :: cohort_rows top post).
    { unfold rows. rewrite cohort_rows_app.
      rewrite (@cohort_rows_kept _ _ _ Hu1), (@cohort_rows_kept _ _ _ Hu2).
      now rewrite <- app_assoc. }
    assert (Hin : In (cohort_rows top pre ++ [r1], r2)
                     (snapshots (cohort_rows top rows))).
    { apply in_snapshots. split; [|apply Hcross].
      exists (cohort_rows top post). exact Hkept. }
    apply In_nth_error in Hin. destruct Hin as [i Hi].
    exists i. split.
    + rewrite Htimes. now rewrite (map_nth_error _ _ _ Hi).
    + intros u h Hh. rewrite (Hhist u h Hh).
      rewrite (map_nth_error _ _ _ Hi). unfold total_at. cbn [fst snd].
      do 2 f_equal. rewrite cohort_rows_app.
      rewrite (@cohort_rows_kept _ _ _ Hu1), (@cohort_rows_kept _ _ _ Hu2).
      now rewrite <- app_assoc.
Qed.

Lemma month_end_is_day_boundary_witness :
  day (time on_day_31) = 31
  /\ day (time on_day_1) = 1
  /\ In (username on_day_31)
        (Dict.keys (get_top_users 10
           (before_month_end ++ on_day_31 :: on_day_1 :: [])))
  /\ In (username on_day_1)
        (Dict.keys (get_top_users 10
           (before_month_end ++ on_day_31 :: on_day_1 :: [])))
  /\ boundary_at (before_month_end ++ on_day_31 :: on_day_1 :: [])
                 (before_month_end ++ [on_day_31]) on_day_1
  /\ get_top_users 10 (before_month_end ++ [on_day_31; on_day_1]) =
     Dict.update (get_top_users 10 (before_month_end ++ [on_day_31]))
       (top_snapshot 10 (totals (before_month_end ++ [on_day_31; on_day_1])))
  /\ (0 <= 10 ->
      forall a,
        ranks_within 10 (before_month_end ++ [on_day_31; on_day_1]) a ->
        In a (Dict.keys (get_top_users 10
                (before_month_end ++ on_day_31 :: on_day_1 :: []))))
  /\ (In (username on_day_31)
         (Dict.keys (get_top_users 10
            (before_month_end ++ on_day_31 :: on_day_1 :: []))) ->
      In (username on_day_1)
         (Dict.keys (get_top_users 10
            (before_month_end ++ on_day_31 :: on_day_1 :: []))) ->
      exists times hist,
        parse_waffle_rows 10 (before_month_end ++ on_day_31 :: on_day_1 :: [])
          = Some (times, hist)
        /\ exists i,
             nth_error times i = Some (time on_day_1)
             /\ forall u h,
                  In (u, h) hist ->
                  nth_error h i =
                    Some (running_total u
                            (cohort_rows
                               (get_top_users 10
                                  (before_month_end
                                   ++ on_day_31 :: on_day_1 :: []))
                               (before_month_end ++ [on_day_31; on_day_1])))).
Proof.
  split; [reflexivity|]. split; [reflexivity|].
  split; [vm_compute; auto|]. split; [vm_compute; auto|].
  apply (@month_end_is_day_boundary 10 before_month_end [] on_day_31 on_day_1);
    reflexivity.
Defined.

(** C8 as stated fails for [parse_waffle_rows]: with [MAX_RANK = 1] the
    event of B on day 31 is not kept, the event of A on day 1 of the next
    month follows an event of A on day 1, and no day boundary is appended
    for it. *)
Lemma month_end_not_appended :
  month_end_filtered
  = [ev "A" 10 (at_day 1 1)]
    ++ ev "B" 1 (at_day 1 31) :: ev "A" 1 (at_day 2 1) :: []
  /\ day (time (ev "B" 1 (at_day 1 31))) = 31
  /\ day (time (ev "A" 1 (at_day 2 1))) = 1
  /\ parse_waffle_rows 1 month_end_filtered
     = Some ([at_day 1 1], [("A"%string, [10])])
  /\ ~ In (time (ev "A" 1 (at_day 2 1))) [at_day 1 1].
Proof.
  split; [reflexivity|]. split; [reflexivity|]. split; [reflexivity|].
  split; [vm_compute; reflexivity|].
  intros [H|[]]. discriminate.
Qed.


(** ** The rows that are kept, user by user *)

(** Of a user of [top_users] the filter of [parse_waffle_rows] keeps every
    row, in order, also the rows from before the user first ranked; of any
    other user it keeps none. *)
Theorem kept_rows_per_user (top_users : CountLookup) (rows : RowList)
    (u : string) :
  filter (fun r => String.eqb (username r) u) (cohort_rows top_users rows)
  = (if Dict.mem u top_users
     then filter (fun r => String.eqb (username r) u) rows else [])
  /\ running_total u (cohort_rows top_users rows)
     = (if Dict.mem u top_users then running_total u rows else 0).
Proof.
  split; [|apply kept_rows_totals].
  unfold cohort_rows. induction rows as [|r rows IH].
  - cbn. now destruct (Dict.mem u top_users).
  - cbn [filter].
    destruct (Dict.mem (username r) top_users) eqn:Hmem; cbn [filter];
      destruct (String.eqb_spec (username r) u) as [Heq|Hne]; rewrite IH.
    + rewrite <- Heq, Hmem. reflexivity.
    + reflexivity.
    + rewrite <- Heq, Hmem. reflexivity.
    + reflexivity.
Qed.

(** ** The plot, again *)

Lemma fold_left_max_in (l : list Z) (a : Z) :
  fold_left Z.max l a = a \/ In (fold_left Z.max l a) l.
Proof.
  revert a. induction l as [|b l IH]; intro a; cbn [fold_left]; [now left|].
  destruct (IH (Z.max a b)) as [Heq|Hin]; [|right; now right].
  rewrite Heq. destruct (Z.max_spec a b) as [[_ ->]|[_ ->]]; [right|left]; auto.
  now left.
Qed.

Lemma py_max_in (l : list Z) (top : Z) : py_max l = Some top -> In top l.
Proof.
  destruct l as [|a l]; [discriminate|]. cbn [py_max]. intros [= <-].
  destruct (fold_left_max_in l a) as [->|Hin]; [now left|now right].
Qed.

(** When no quantity is negative and the cohort is not empty, the y axis
    runs from 0 to the largest of the final counts [history[LAST]], and no
    count that is drawn lies outside of it. *)
Theorem drawn_counts_within_limits (MAX_RANK : Z) (DO_TEXTBOXES : bool)
    (rows : RowList) :
  (forall r, In r rows -> 0 <= waffles r) ->
  get_top_users MAX_RANK rows <> [] ->
  exists times hist p,
    parse_waffle_rows MAX_RANK rows = Some (times, hist)
    /\ do_it MAX_RANK DO_TEXTBOXES rows = Some p
    /\ fst (plot_ylim p) = 0
    /\ (forall u h c, In (u, h) hist -> py_index LAST h = Some c ->
          c <= snd (plot_ylim p))
    /\ (exists u h, In (u, h) hist /\ py_index LAST h = Some (snd (plot_ylim p)))
    /\ forall d y, In d (plot_drawn p) -> In y (line_y (fst d)) ->
         0 <= y <= snd (plot_ylim p).
Proof.
  intros Hpos Hne.
  destruct (parsed_facts MAX_RANK rows)
    as (times & hist & Hparse & Hnd & Hall & Hiff & Hnonempty & Hmono).
  destruct (Hnonempty Hne) as [Htimes Hhist].
  destruct (@do_plot_some DO_TEXTBOXES times hist Hnd Hall Htimes Hhist)
    as (drawn & top & xl & Hplot & Htop & _ & Hd).
  exists times, hist, (mkPlot drawn (0, top) xl). unfold do_it. rewrite Hparse.
  split; [reflexivity|]. split; [exact Hplot|]. split; [reflexivity|].
  cbn [plot_drawn plot_ylim snd].
  assert (Hfinal : forall u h, In (u, h) hist -> List.last h 0 <= top).
  { intros u h Hitem. apply (@py_max_ge _ _ _ Htop).
    apply in_map_iff. exists (u, h). split; [reflexivity|exact Hitem]. }
  split; [|split].
  - intros u h c Hitem Hc.
    destruct (Hall u h Hitem) as [_ Hfull].
    rewrite (py_index_last 0 Hfull) in Hc. injection Hc as <-.
    now apply (Hfinal u).
  - apply py_max_in, in_map_iff in Htop.
    destruct Htop as ([u h] & Hlast & Hitem). cbn [snd] in Hlast.
    exists u, h. split; [exact Hitem|].
    destruct (Hall u h Hitem) as [_ Hfull].
    now rewrite (py_index_last 0 Hfull), Hlast.
  - intros d y Hin Hy.
    destruct (Hd d Hin) as (_ & u & h & f & l & Hitem & _ & _ & _ & Hline & _).
    rewrite Hline in Hy. apply py_slice_incl in Hy. split.
    + exact (@history_counts_nonneg _ _ _ _ Hpos Hparse u h y Hitem Hy).
    + pose proof (@nondecreasing_le_last h y (Hmono Hpos u h Hitem) Hy) as Hlast.
      specialize (Hfinal u h Hitem). lia.
Qed.

Lemma drawn_counts_within_limits_witness :
  (forall r, In r constant_tail -> 0 <= waffles r)
  /\ get_top_users 10 constant_tail <> []
  /\ exists times hist p,
       parse_waffle_rows 10 constant_tail = Some (times, hist)
       /\ do_it 10 true constant_tail = Some p
       /\ fst (plot_ylim p) = 0
       /\ (forall u h c, In (u, h) hist -> py_index LAST h = Some c ->
             c <= snd (plot_ylim p))
       /\ (exists u h, In (u, h) hist
                       /\ py_index LAST h = Some (snd (plot_ylim p)))
       /\ forall d y, In d (plot_drawn p) -> In y (line_y (fst d)) ->
            0 <= y <= snd (plot_ylim p).
Proof.
  assert (Hpos : forall r, In r constant_tail -> 0 <= waffles r).
  { intros r [<-|[<-|[<-|[]]]]; cbn; lia. }
  assert (Hne : get_top_users 10 constant_tail <> []) by (vm_compute; discriminate).
  split; [exact Hpos|]. split; [exact Hne|].
  apply (@drawn_counts_within_limits 10 true constant_tail Hpos Hne).
Defined.

(** When the cohort is not empty, [do_plot] draws a line for every user of
    the history lookup, and the line of a user has no points (neither times
    nor counts) exactly when the history of the user is constant and has at
    least two entries. *)
Theorem constant_history_is_not_drawn (MAX_RANK : Z) (DO_TEXTBOXES : bool)
    (rows : RowList) :
  get_top_users MAX_RANK rows <> [] ->
  exists times hist p,
    parse_waffle_rows MAX_RANK rows = Some (times, hist)
    /\ do_it MAX_RANK DO_TEXTBOXES rows = Some p
    /\ (forall u h, In (u, h) hist ->
          exists d, In d (plot_drawn p) /\ line_label (fst d) = u)
    /\ forall d, In d (plot_drawn p) ->
         exists h,
           In (line_label (fst d), h) hist
           /\ (line_y (fst d) = [] <-> constant h /\ 2 <= len h)
           /\ (line_x (fst d) = [] <-> constant h /\ 2 <= len h).
Proof.
  intro Hne.
  destruct (parsed_facts MAX_RANK rows)
    as (times & hist & Hparse & Hnd & Hall & Hiff & Hnonempty & _).
  destruct (Hnonempty Hne) as [Htimes Hhist].
  destruct (@do_plot_some DO_TEXTBOXES times hist Hnd Hall Htimes Hhist)
    as (drawn & top & xl & Hplot & _ & Hlabels & Hd).
  exists times, hist, (mkPlot drawn (0, top) xl). unfold do_it. rewrite Hparse.
  split; [reflexivity|]. split; [exact Hplot|]. cbn [plot_drawn]. split.
  - intros u h Hitem.
    assert (Hin : In u (map (fun d => line_label (fst d)) drawn)).
    { rewrite Hlabels. change u with (fst (u, h)). now apply in_map. }
    apply in_map_iff in Hin. destruct Hin as (d & Hl & Hin). now exists d.
  - intros d Hin.
    destruct (Hd d Hin)
      as (Hlen & u & h & f & l & Hitem & Hlw & Hlabel & _ & Hy & _).
    exists h. rewrite Hlabel. split; [exact Hitem|].
    assert (Hyiff : line_y (fst d) = [] <-> constant h /\ 2 <= len h).
    { rewrite Hy. now apply slice_empty_iff_constant. }
    split; [exact Hyiff|]. rewrite <- Hyiff.
    destruct (line_x (fst d)), (line_y (fst d)); cbn in Hlen;
      split; intro H; try reflexivity; discriminate.
Qed.

Lemma constant_history_is_not_drawn_witness :
  get_top_users 10 constant_tail <> []
  /\ exists times hist p,
       parse_waffle_rows 10 constant_tail = Some (times, hist)
       /\ do_it 10 false constant_tail = Some p
       /\ (forall u h, In (u, h) hist ->
             exists d, In d (plot_drawn p) /\ line_label (fst d) = u)
       /\ forall d, In d (plot_drawn p) ->
            exists h,
              In (line_label (fst d), h) hist
              /\ (line_y (fst d) = [] <-> constant h /\ 2 <= len h)
              /\ (line_x (fst d) = [] <-> constant h /\ 2 <= len h).
Proof.
  assert (Hne : get_top_users 10 constant_tail <> []) by (vm_compute; discriminate).
  split; [exact Hne|].
  apply (@constant_history_is_not_drawn 10 false constant_tail Hne).
Defined.

(** With text boxes and a cohort that is not empty, [do_plot] gives every
    line a text box; its text shows the user and the final count
    [history[LAST]] of the user, it is placed at an entry of the history of
    the user, and when that history changes at all the count at which it is
    placed differs from the count it shows. *)
Theorem text_box_is_off_its_count (MAX_RANK : Z) (rows : RowList) :
  get_top_users MAX_RANK rows <> [] ->
  exists times hist p,
    parse_waffle_rows MAX_RANK rows = Some (times, hist)
    /\ do_it MAX_RANK true rows = Some p
    /\ forall d, In d (plot_drawn p) ->
         exists box h,
           snd d = Some box
           /\ In (line_label (fst d), h) hist
           /\ text_user box = line_label (fst d)
           /\ py_index LAST h = Some (text_count box)
           /\ In (text_y box) h
           /\ In (text_x box) times
           /\ (~ constant h -> text_y box <> text_count box).
Proof.
  intro Hne.
  destruct (parsed_facts MAX_RANK rows)
    as (times & hist & Hparse & Hnd & Hall & Hiff & Hnonempty & _).
  destruct (Hnonempty Hne) as [Htimes Hhist].
  destruct (@do_plot_some true times hist Hnd Hall Htimes Hhist)
    as (drawn & top & xl & Hplot & _ & _ & Hd).
  exists times, hist, (mkPlot drawn (0, top) xl). unfold do_it. rewrite Hparse.
  split; [reflexivity|]. split; [exact Hplot|]. cbn [plot_drawn].
  intros d Hin.
  destruct (Hd d Hin)
    as (_ & u & h & f & l & Hitem & Hlw & Hlabel & _ & _ & Hsome & Hbox).
  destruct (snd d) as [box|] eqn:Hsnd; [|now destruct (Hsome eq_refl)].
  destruct (Hbox box eq_refl) as (Huser & Hx & Hy & Hc).
  exists box, h. rewrite Hlabel.
  assert (Hin_index : forall (A : Type) (i : Z) (xs : list A) (x : A),
            py_index i xs = Some x -> In x xs).
  { intros A i xs x. unfold py_index.
    destruct ((0 <=? _) && _); [|discriminate]. apply nth_error_In. }
  split; [reflexivity|]. split; [exact Hitem|]. split; [exact Huser|].
  split; [exact Hc|]. split; [exact (Hin_index _ _ _ _ Hy)|].
  split; [exact (Hin_index _ _ _ _ Hx)|].
  intro Hnc. exact (@entry_before_last_differs h f l _ _ Hnc Hlw Hy Hc).
Qed.

Lemma text_box_is_off_its_count_witness :
  get_top_users 10 two_events <> []
  /\ exists times hist p,
       parse_waffle_rows 10 two_events = Some (times, hist)
       /\ do_it 10 true two_events = Some p
       /\ forall d, In d (plot_drawn p) ->
            exists box h,
              snd d = Some box
              /\ In (line_label (fst d), h) hist
              /\ text_user box = line_label (fst d)
              /\ py_index LAST h = Some (text_count box)
              /\ In (text_y box) h
              /\ In (text_x box) times
              /\ (~ constant h -> text_y box <> text_count box).
Proof.
  assert (Hne : get_top_users 10 two_events <> []) by (vm_compute; discriminate).
  split; [exact Hne|].
  apply (@text_box_is_off_its_count 10 two_events Hne).
Defined.

(** When the cohort is empty (no rows at all, or [MAX_RANK = 0]),
    [parse_waffle_rows] returns no times and no histories; the list of
    final counts is then empty, so that [max] has no value on it, there is
    no [consumption_times[FIRST]], and [do_plot] does not return. *)
Theorem plot_of_empty_cohort_raises (MAX_RANK : Z) (DO_TEXTBOXES : bool)
    (rows : RowList) :
  get_top_users MAX_RANK rows = [] ->
  exists times hist,
    parse_waffle_rows MAX_RANK rows = Some (times, hist)
    /\ times = [] /\ hist = []
    /\ get_linestyle_cycle (len hist) = []
    /\ final_counts hist = Some []
    /\ py_max [] = None
    /\ py_index FIRST times = None
    /\ do_it MAX_RANK DO_TEXTBOXES rows = None.
Proof.
  intro Hnil.
  assert (Hparse : parse_waffle_rows MAX_RANK rows = Some ([], [])).
  { unfold parse_waffle_rows. rewrite Hnil.
    assert (Hkept : cohort_rows [] rows = []).
    { unfold cohort_rows. clear Hnil.
      induction rows as [|r rows IH]; [reflexivity|exact IH]. }
    now rewrite Hkept. }
  exists [], []. split; [exact Hparse|].
  unfold do_it. rewrite Hparse. repeat split; reflexivity.
Qed.

Lemma plot_of_empty_cohort_raises_witness :
  get_top_users 0 overtaken = []
  /\ exists times hist,
       parse_waffle_rows 0 overtaken = Some (times, hist)
       /\ times = [] /\ hist = []
       /\ get_linestyle_cycle (len hist) = []
       /\ final_counts hist = Some []
       /\ py_max [] = None
       /\ py_index FIRST times = None
       /\ do_it 0 false overtaken = None.
Proof.
  assert (Hnil : get_top_users 0 overtaken = []) by (vm_compute; reflexivity).
  split; [exact Hnil|].
  apply (@plot_of_empty_cohort_raises 0 false overtaken Hnil).
Defined.

(** ** The ranking on small inputs *)

Example rank_of_overtaken :
  rank overtaken "A" = 1%nat /\ rank overtaken "B" = 0%nat.
Proof. split; reflexivity. Qed.

Example rank_of_tied :
  rank same_day_newcomer "A" = 0%nat
  /\ rank [ev "A" 3 (at_day 1 1); ev "B" 3 (at_day 1 1)] "B" = 1%nat
  /\ first_seen evicted = ["A"; "B"; "C"]%string.
Proof. repeat split; reflexivity. Qed.
